(** * Contacts repository: search and birthday-window matching

    A shallow embedding of [src/repository/contacts.py] and of the parts of
    Python's [datetime] and of SQL's [LIKE] that it calls, followed by the
    properties of the repository functions.

    Conventions of the embedding:
    - Python integers are [Z]; text columns are [string].
    - A raised exception is a value [Raise e] of the [result] type; the
      functions that cannot raise return plain values.
    - The database session is the contacts table, a list of rows in
      store-native order.  [Query.filter(P).all()] keeps the rows satisfying
      [P] in that order, [.first()] takes the first of them, and [commit]
      writes a modified row back under its primary key.
    - [datetime.now()] is an argument [now] (the calendar date of the clock
      reading); the reads of the clock within one call see the same day. *)

From Stdlib Require Import ZArith List String Ascii Bool Lia Permutation.
Import ListNotations.

Local Open Scope Z_scope.
Local Open Scope list_scope.

(** ** Exceptions *)

Inductive exn : Type :=
| ValueError
| OverflowError.

Inductive result (A : Type) : Type :=
| Ok (a : A)
| Raise (e : exn).

Arguments Ok {A} a.
Arguments Raise {A} e.

Definition bind {A B : Type} (c : result A) (k : A -> result B) : result B :=
  match c with
  | Ok a => k a
  | Raise e => Raise e
  end.

Notation "x <- c ;; k" := (bind c (fun x => k))
  (at level 61, c at next level, right associativity).

(** ** The fragment of Python's [datetime] used by the repository *)

Module datetime.

Definition MINYEAR : Z := 1.
Definition MAXYEAR : Z := 9999.

(** Python lists indexed from 0; index 0 is the placeholder [-1]. *)
Definition _DAYS_IN_MONTH : list Z :=
  [-1; 31; 28; 31; 30; 31; 30; 31; 31; 30; 31; 30; 31].

Definition _DAYS_BEFORE_MONTH : list Z :=
  [-1; 0; 31; 59; 90; 120; 151; 181; 212; 243; 273; 304; 334].

Definition _is_leap (year : Z) : bool :=
  (year mod 4 =? 0) && (negb (year mod 100 =? 0) || (year mod 400 =? 0)).

Definition _days_before_year (year : Z) : Z :=
  let y := year - 1 in
  y * 365 + y / 4 - y / 100 + y / 400.

Definition _days_in_month (year month : Z) : Z :=
  if (month =? 2) && _is_leap year then 29
  else nth (Z.to_nat month) _DAYS_IN_MONTH 0.

Definition _days_before_month (year month : Z) : Z :=
  nth (Z.to_nat month) _DAYS_BEFORE_MONTH 0
  + (if (2 <? month) && _is_leap year then 1 else 0).

Definition _ymd2ord (year month day : Z) : Z :=
  _days_before_year year + _days_before_month year month + day.

Record date : Type := mkdate { year : Z; month : Z; day : Z }.

(** [_check_date_fields]: the three range checks, in the order of the
    library. *)
Definition _check_date_fields (y m d : Z) : result unit :=
  if negb ((MINYEAR <=? y) && (y <=? MAXYEAR)) then Raise ValueError
  else if negb ((1 <=? m) && (m <=? 12)) then Raise ValueError
  else if negb ((1 <=? d) && (d <=? _days_in_month y m)) then Raise ValueError
  else Ok tt.

(** [date(year, month, day)] *)
Definition date_new (y m d : Z) : result date :=
  _ <- _check_date_fields y m d ;;
  Ok (mkdate y m d).

(** [self.replace(year=y)] *)
Definition replace_year (self : date) (y : Z) : result date :=
  date_new y (month self) (day self).

Definition toordinal (self : date) : Z :=
  _ymd2ord (year self) (month self) (day self).

(** A [timedelta] whose seconds and microseconds are zero, the only ones
    that arise from whole days and from differences of dates. *)
Record timedelta : Type := mktimedelta { days : Z }.

(** [timedelta(days=n)] refuses a magnitude above 999999999 days. *)
Definition timedelta_new (n : Z) : result timedelta :=
  if Z.abs n <=? 999999999 then Ok (mktimedelta n) else Raise OverflowError.

(** [self - other] on dates; the difference of two dates is always in
    range. *)
Definition date_sub (self other : date) : timedelta :=
  mktimedelta (toordinal self - toordinal other).

(** [a <= b] on timedeltas *)
Definition timedelta_le (a b : timedelta) : bool := days a <=? days b.

(** [a < b] on dates: the comparison of the (year, month, day) triples. *)
Definition date_lt (a b : date) : bool :=
  (year a <? year b)
  || ((year a =? year b)
      && ((month a <? month b)
          || ((month a =? month b) && (day a <? day b)))).

(** The dates that a [date] object can hold. *)
Definition valid (d : date) : bool :=
  match _check_date_fields (year d) (month d) (day d) with
  | Ok _ => true
  | Raise _ => false
  end.

End datetime.

(** ** SQL [LIKE]

    The predicate of the SQL standard without an ESCAPE clause: in the
    pattern, [%] stands for any run of characters (also the empty one), [_]
    for exactly one character, and every other character for itself under a
    binary collation.  The repository passes no [escape=], so the store's
    own reading applies beyond this: PostgreSQL takes a backslash in the
    pattern as an escape, SQLite compares ASCII letters without regard to
    case.  On patterns without backslash and without letters the stores
    and this predicate agree; the properties below that read a match as a
    verbatim occurrence are stated for such fragments or at inputs on which
    the stores agree. *)

Local Open Scope char_scope.

Fixpoint sql_like (pattern : string) (s : string) {struct pattern} : bool :=
  match pattern with
  | EmptyString =>
      match s with
      | EmptyString => true
      | String _ _ => false
      end
  | String p pattern' =>
      if Ascii.eqb p "%" then
        (fix skip (t : string) : bool :=
           sql_like pattern' t
           || match t with
              | EmptyString => false
              | String _ t' => skip t'
              end) s
      else if Ascii.eqb p "_" then
        match s with
        | EmptyString => false
        | String _ s' => sql_like pattern' s'
        end
      else
        match s with
        | EmptyString => false
        | String a s' => Ascii.eqb p a && sql_like pattern' s'
        end
  end.

Local Close Scope char_scope.

(** ** Data model *)

Module User.
(** Modelled from the spec: the [User] table of [src/database/models.py],
    which is not among the sources; of its attributes the repository reads
    the identifier only. *)
Record t : Type := mk { id : Z }.
End User.

Module Contact.
(** Modelled from the spec: the [Contact] table of
    [src/database/models.py], which is not among the sources; the
    attributes are those that the spec lists and [create_contact] sets. *)
Record t : Type := mk {
  id : Z;
  first_name : string;
  second_name : string;
  email : string;
  phone : string;
  birthday : datetime.date;
  description : string;
  user_id : Z
}.
End Contact.

Module ContactModel.
(** Modelled from the spec: the request schema of [src/schemas.py], which
    is not among the sources; the six attributes that [create_contact] and
    [update_contact] read from it. *)
Record t : Type := mk {
  first_name : string;
  second_name : string;
  email : string;
  phone : string;
  birthday : datetime.date;
  description : string
}.
End ContactModel.

(** ** The session *)

Record Session : Type := mkSession { contacts_table : list Contact.t }.

(** [db.query(Contact).filter(P).all()] *)
Definition query_all (P : Contact.t -> bool) (db : Session) : list Contact.t :=
  filter P (contacts_table db).

(** [db.query(Contact).filter(P).first()] *)
Definition query_first (P : Contact.t -> bool) (db : Session) : option Contact.t :=
  find P (contacts_table db).

(** [db.commit()] after attribute assignments on the loaded row [contact]:
    the unit of work issues [UPDATE contacts SET ... WHERE id = contact.id].
    The row is kept at its place here; where a store puts an updated row
    in its native order is the store's matter (PostgreSQL moves it), and
    the properties of [update_contact] below speak of the rows and of
    lookups by identifier only, not of their order. *)
Definition commit (contact : Contact.t) (db : Session) : Session :=
  mkSession
    (map (fun row => if Contact.id row =? Contact.id contact then contact else row)
         (contacts_table db)).

(** ** The repository functions of [src/repository/contacts.py] *)

(** [for n in rows: response.append(n)] *)
Definition append_all (response rows : list Contact.t) : list Contact.t :=
  fold_left (fun acc n => acc ++ [n]) rows response.

(** The truth value of a list in [if rows:] *)
Definition truthy {A : Type} (l : list A) : bool :=
  match l with
  | [] => false
  | _ :: _ => true
  end.

Definition get_contact (contact_id : Z) (db : Session) (user : User.t)
  : option Contact.t :=
  query_first
    (fun c => (Contact.id c =? contact_id) && (Contact.user_id c =? User.id user))
    db.

(** The attribute assignments of [update_contact], one function each. *)
Definition set_first_name (v : string) (c : Contact.t) : Contact.t :=
  Contact.mk (Contact.id c) v (Contact.second_name c) (Contact.email c)
    (Contact.phone c) (Contact.birthday c) (Contact.description c)
    (Contact.user_id c).

Definition set_second_name (v : string) (c : Contact.t) : Contact.t :=
  Contact.mk (Contact.id c) (Contact.first_name c) v (Contact.email c)
    (Contact.phone c) (Contact.birthday c) (Contact.description c)
    (Contact.user_id c).

Definition set_email (v : string) (c : Contact.t) : Contact.t :=
  Contact.mk (Contact.id c) (Contact.first_name c) (Contact.second_name c) v
    (Contact.phone c) (Contact.birthday c) (Contact.description c)
    (Contact.user_id c).

Definition set_phone (v : string) (c : Contact.t) : Contact.t :=
  Contact.mk (Contact.id c) (Contact.first_name c) (Contact.second_name c)
    (Contact.email c) v (Contact.birthday c) (Contact.description c)
    (Contact.user_id c).

Definition set_birthday (v : datetime.date) (c : Contact.t) : Contact.t :=
  Contact.mk (Contact.id c) (Contact.first_name c) (Contact.second_name c)
    (Contact.email c) (Contact.phone c) v (Contact.description c)
    (Contact.user_id c).

Definition set_description (v : string) (c : Contact.t) : Contact.t :=
  Contact.mk (Contact.id c) (Contact.first_name c) (Contact.second_name c)
    (Contact.email c) (Contact.phone c) (Contact.birthday c) v
    (Contact.user_id c).

Definition set_user_id (v : Z) (c : Contact.t) : Contact.t :=
  Contact.mk (Contact.id c) (Contact.first_name c) (Contact.second_name c)
    (Contact.email c) (Contact.phone c) (Contact.birthday c)
    (Contact.description c) v.

(** [update_contact]: the session after the call and the returned value. *)
Definition update_contact (contact_id : Z) (body : ContactModel.t)
    (db : Session) (user : User.t) : Session * option Contact.t :=
  match
    query_first
      (fun c => (Contact.id c =? contact_id) && (Contact.user_id c =? User.id user))
      db
  with
  | Some contact =>
      let contact := set_first_name (ContactModel.first_name body) contact in
      let contact := set_second_name (ContactModel.second_name body) contact in
      let contact := set_email (ContactModel.email body) contact in
      let contact := set_phone (ContactModel.phone body) contact in
      let contact := set_birthday (ContactModel.birthday body) contact in
      let contact := set_description (ContactModel.description body) contact in
      let contact := set_user_id (Contact.id contact) contact in
      (commit contact db, Some contact)
  | None => (db, None)
  end.

(** The pattern [f'%{some_info}%'] *)
Definition like_pattern (some_info : string) : string :=
  ("%" ++ some_info ++ "%")%string.

Definition get_contact_by_some_info (some_info : string) (db : Session)
    (user : User.t) : list Contact.t :=
  let response := [] in
  let info_by_first_name :=
    query_all
      (fun c => sql_like (like_pattern some_info) (Contact.first_name c)
                && (Contact.user_id c =? User.id user)) db in
  let response :=
    if truthy info_by_first_name then append_all response info_by_first_name
    else response in
  let info_by_second_name :=
    query_all
      (fun c => sql_like (like_pattern some_info) (Contact.second_name c)
                && (Contact.user_id c =? User.id user)) db in
  let response :=
    if truthy info_by_second_name then append_all response info_by_second_name
    else response in
  let info_by_email :=
    query_all
      (fun c => sql_like (like_pattern some_info) (Contact.email c)
                && (Contact.user_id c =? User.id user)) db in
  let response :=
    if truthy info_by_email then append_all response info_by_email
    else response in
  response.

(** The condition of the loop of [get_birthday_per_week],
    [timedelta(0) <= cont.birthday.replace(year=now.year) - now.date()
                  <= timedelta(days)],
    a chained comparison: the year substitution is evaluated first, and
    [timedelta(days)] only when the left comparison holds. *)
Definition in_window (days : Z) (now : datetime.date) (cont : Contact.t)
  : result bool :=
  zero <- datetime.timedelta_new 0 ;;
  b <- datetime.replace_year (Contact.birthday cont) (datetime.year now) ;;
  let delta := datetime.date_sub b now in
  if datetime.timedelta_le zero delta then
    window <- datetime.timedelta_new days ;;
    Ok (datetime.timedelta_le delta window)
  else Ok false.

(** [for cont in all_contacts: if ...: response.append(cont)] *)
Fixpoint birthday_loop (days : Z) (now : datetime.date)
    (all_contacts response : list Contact.t) : result (list Contact.t) :=
  match all_contacts with
  | [] => Ok response
  | cont :: rest =>
      hit <- in_window days now cont ;;
      birthday_loop days now rest (if hit then response ++ [cont] else response)
  end.

Definition get_birthday_per_week (days : Z) (db : Session) (user : User.t)
    (now : datetime.date) : result (list Contact.t) :=
  let response := [] in
  let all_contacts :=
    query_all (fun c => Contact.user_id c =? User.id user) db in
  birthday_loop days now all_contacts response.


(** ** What the claims speak of *)

(** [fragment in s]: the fragment occurs verbatim in [s]. *)
Fixpoint contains (fragment s : string) : bool :=
  String.prefix fragment s
  || match s with
     | EmptyString => false
     | String _ s' => contains fragment s'
     end.

(** The contact belongs to the user. *)
Definition owned_by (user : User.t) (c : Contact.t) : bool :=
  Contact.user_id c =? User.id user.

(** The rows of the user, in store-native order. *)
Definition owned_contacts (db : Session) (user : User.t) : list Contact.t :=
  filter (owned_by user) (contacts_table db).

(** The store's match of the search pattern on one column. *)
Definition field_matches (some_info : string) (field : Contact.t -> string)
    (c : Contact.t) : bool :=
  sql_like (like_pattern some_info) (field c).

(** The owner's rows that match on one column, in store-native order. *)
Definition matches_on (some_info : string) (field : Contact.t -> string)
    (db : Session) (user : User.t) : list Contact.t :=
  filter (fun c => field_matches some_info field c) (owned_contacts db user).

(** In how many of the three searched columns the row matches. *)
Definition matching_fields (some_info : string) (c : Contact.t) : nat :=
  (if field_matches some_info Contact.first_name c then 1 else 0)
  + (if field_matches some_info Contact.second_name c then 1 else 0)
  + (if field_matches some_info Contact.email c then 1 else 0).

(** How often the contact with identifier [cid] occurs in a sequence. *)
Definition occurrences (cid : Z) (l : list Contact.t) : nat :=
  List.length (filter (fun r => Contact.id r =? cid) l).

(** The identifier is the primary key of the table. *)
Definition primary_key (db : Session) : Prop :=
  NoDup (map Contact.id (contacts_table db)).

(** The birthday with its year replaced by the year of [now], as a triple,
    whether or not such a date exists. *)
Definition birthday_this_year (now : datetime.date) (c : Contact.t)
  : datetime.date :=
  datetime.mkdate (datetime.year now)
    (datetime.month (Contact.birthday c)) (datetime.day (Contact.birthday c)).

(** [delta = B - today] in calendar days. *)
Definition delta (now : datetime.date) (c : Contact.t) : Z :=
  datetime.toordinal (birthday_this_year now c) - datetime.toordinal now.

(** The window of the spec: the owner's contacts with
    [0 <= delta <= days], in store-native order. *)
Definition birthday_window (days : Z) (db : Session) (user : User.t)
    (now : datetime.date) : list Contact.t :=
  filter (fun c => (0 <=? delta now c) && (delta now c <=? days))
         (owned_contacts db user).

(** A birthday on February 29. *)
Definition leap_day (d : datetime.date) : bool :=
  (datetime.month d =? 2) && (datetime.day d =? 29).

(** The year substitution is defined for every contact of the user: no
    birthday of theirs is a February 29 unless the year of [now] is leap. *)
Definition no_leap_day_clash (db : Session) (user : User.t)
    (now : datetime.date) : Prop :=
  forall c, In c (owned_contacts db user) ->
    leap_day (Contact.birthday c) = true ->
    datetime._is_leap (datetime.year now) = true.

(** Every stored birthday of the user is a date that a [date] object can
    hold. *)
Definition birthdays_valid (db : Session) (user : User.t) : Prop :=
  forall c, In c (owned_contacts db user) ->
    datetime.valid (Contact.birthday c) = true.



(** ** Sample data, after [tests/test_unit_repository_contacts.py] *)

Local Open Scope string_scope.
Local Open Scope list_scope.
Local Open Scope Z_scope.

Definition user1 : User.t := User.mk 1.

Definition contact_user (cid : Z) (bday : datetime.date) : Contact.t :=
  Contact.mk cid "User" "Example" "example@gmail.com" "0635624678" bday
    "Some info for testing" 1.

Definition contact_user1 (cid : Z) (bday : datetime.date) : Contact.t :=
  Contact.mk cid "User1" "Example1" "example1@gmail.com" "0985578900" bday
    "Some info for testing" 1.

Definition contact_user2 (cid : Z) (bday : datetime.date) : Contact.t :=
  Contact.mk cid "User2" "Example2" "example2@gmail.com" "0941251588" bday
    "Some info for testing" 1.

Definition body4 : ContactModel.t :=
  ContactModel.mk "User4" "Example" "example@gmail.com" "0671122456"
    (datetime.mkdate 1995 8 19) "Some info for testing".

(** One contact, number 2, of user 1. *)
Definition store_one : Session :=
  mkSession [contact_user 2 (datetime.mkdate 1988 3 25)].

(** The three contacts of the tests, all of user 1. *)
Definition store_three : Session :=
  mkSession [contact_user 1 (datetime.mkdate 1988 3 25);
             contact_user1 2 (datetime.mkdate 1990 3 20);
             contact_user2 3 (datetime.mkdate 1992 3 18)].

(** A contact born on a February 29, of user 1. *)
Definition store_leap : Session :=
  mkSession [contact_user 1 (datetime.mkdate 2000 2 29)].

(** A birthday on January 2 and one on December 31, both of user 1. *)
Definition store_new_year : Session :=
  mkSession [contact_user 1 (datetime.mkdate 1990 1 2);
             contact_user1 2 (datetime.mkdate 1991 12 31)].

(** ** The other functions of [src/repository/contacts.py] *)

(** The outcome of a statement with [OFFSET] and [LIMIT]: the rows, or the
    failure of the statement on a row count that the store does not take:
    above [BIGINT_MAX] the bound parameter is out of the range of the
    store's integers and the call raises; a negative count is a data
    exception of the SQL standard (PostgreSQL raises; SQLite reads it as no
    bound).  The properties below speak of counts from 0 to [BIGINT_MAX]. *)
Inductive fetched (A : Type) : Type :=
| Rows (rows : A)
| StatementRejected.

Arguments Rows {A} rows.
Arguments StatementRejected {A}.

(** The largest integer of the store, [2^63 - 1]. *)
Definition BIGINT_MAX : Z := 9223372036854775807.

(** A row count that the store takes for [OFFSET] or [LIMIT]. *)
Definition row_count (n : Z) : bool := (0 <=? n) && (n <=? BIGINT_MAX).

(** [db.query(Contact).filter(...).offset(skip).limit(limit).all()] *)
Definition get_contacts (skip limit : Z) (db : Session) (user : User.t)
  : fetched (list Contact.t) :=
  if negb (row_count skip && row_count limit) then StatementRejected
  else
    Rows (firstn (Z.to_nat limit)
            (skipn (Z.to_nat skip)
               (query_all (fun c => Contact.user_id c =? User.id user) db))).

(** [db.add(contact); db.commit()]: the row is inserted, last in
    store-native order. *)
Definition add (contact : Contact.t) (db : Session) : Session :=
  mkSession (contacts_table db ++ [contact]).

(** [create_contact]: the session after the call and the returned contact.
    The object is built without an identifier; the store assigns one on
    insertion and [db.refresh] reads it back: [new_id] is that identifier. *)
Definition create_contact (body : ContactModel.t) (db : Session)
    (user : User.t) (new_id : Z) : Session * Contact.t :=
  let contact :=
    Contact.mk new_id (ContactModel.first_name body)
      (ContactModel.second_name body) (ContactModel.email body)
      (ContactModel.phone body) (ContactModel.birthday body)
      (ContactModel.description body) (User.id user) in
  (add contact db, contact).

(** [db.delete(contact); db.commit()]: the unit of work issues
    [DELETE FROM contacts WHERE id = contact.id]. *)
Definition delete (contact : Contact.t) (db : Session) : Session :=
  mkSession
    (filter (fun row => negb (Contact.id row =? Contact.id contact))
            (contacts_table db)).

(** [remove_contact]: the session after the call and the returned value. *)
Definition remove_contact (contact_id : Z) (db : Session) (user : User.t)
  : Session * option Contact.t :=
  match
    query_first
      (fun c => (Contact.id c =? contact_id) && (Contact.user_id c =? User.id user))
      db
  with
  | Some contact => (delete contact db, Some contact)
  | None => (db, None)
  end.

(** The identifier is not in use in the table. *)
Definition fresh_id (new_id : Z) (db : Session) : Prop :=
  ~ In new_id (map Contact.id (contacts_table db)).

(** Two users with one contact each. *)
Definition store_two_users : Session :=
  mkSession [contact_user 1 (datetime.mkdate 1988 3 25);
             Contact.mk 2 "Other" "Owner" "other@gmail.com" "0500000000"
               (datetime.mkdate 1991 7 4) "Of user 2" 2].

(** One contact of user 1 with an underscore in two of its columns. *)
Definition store_underscore : Session :=
  mkSession [Contact.mk 1 "ab" "a_" "a_@x" "0600000000"
               (datetime.mkdate 1993 5 6) "Underscores" 1].



(** ** The handlers of [src/routes/contacts.py]

    A handler is a function of its path and body arguments, of the session
    and of the authenticated user that the dependencies supply. *)

Module routes.

(** What a handler gives back: a response body, an [HTTPException] that it
    raised itself, or an exception of the repository that it lets through. *)
Inductive response (A : Type) : Type :=
| Respond (body : A)
| HTTPException (status_code : Z) (detail : string)
| Propagated (e : exn).

Arguments Respond {A} body.
Arguments HTTPException {A} status_code detail.
Arguments Propagated {A} e.

Definition HTTP_404_NOT_FOUND : Z := 404.

(** [x is None] of a value that is a list object. *)
Definition list_is_None {A : Type} (x : list A) : bool := false.

Definition find_contact_by_some_info (some_info : string) (db : Session)
    (current_user : User.t) : response (list Contact.t) :=
  let contacts := get_contact_by_some_info some_info db current_user in
  if list_is_None contacts then
    HTTPException HTTP_404_NOT_FOUND "Contact not found"
  else Respond contacts.

Definition find_birthday_per_week (days : Z) (db : Session)
    (current_user : User.t) (now : datetime.date)
  : response (list Contact.t) :=
  match get_birthday_per_week days db current_user now with
  | Raise e => Propagated e
  | Ok contacts =>
      if list_is_None contacts then
        HTTPException HTTP_404_NOT_FOUND "Contact not found"
      else Respond contacts
  end.

(** In the three handlers below [if contact is None: raise ...] and
    [return contact] are the two branches of a match. *)
Definition read_contact (contact_id : Z) (db : Session)
    (current_user : User.t) : response Contact.t :=
  let contact := get_contact contact_id db current_user in
  match contact with
  | None => HTTPException HTTP_404_NOT_FOUND "Contact not found"
  | Some c => Respond c
  end.

Definition update_contact (body : ContactModel.t) (contact_id : Z)
    (db : Session) (current_user : User.t) : Session * response Contact.t :=
  let '(db', contact) := update_contact contact_id body db current_user in
  match contact with
  | None => (db', HTTPException HTTP_404_NOT_FOUND "Contact not found")
  | Some c => (db', Respond c)
  end.

Definition remove_contact (contact_id : Z) (db : Session)
    (current_user : User.t) : Session * response Contact.t :=
  let '(db', contact) := remove_contact contact_id db current_user in
  match contact with
  | None => (db', HTTPException HTTP_404_NOT_FOUND "Contact not found")
  | Some c => (db', Respond c)
  end.

End routes.

(** * Properties *)

(** ** Calendar lemmas *)

Section Calendar.

Import datetime.

Lemma valid_fields (d : date) :
  valid d = true ->
  MINYEAR <= year d <= MAXYEAR /\ 1 <= month d <= 12
  /\ 1 <= day d <= _days_in_month (year d) (month d).
Proof.
  unfold valid, _check_date_fields.
  destruct ((MINYEAR <=? year d) && (year d <=? MAXYEAR)) eqn:Hy;
    [|discriminate].
  destruct ((1 <=? month d) && (month d <=? 12)) eqn:Hm; [|discriminate].
  destruct ((1 <=? day d) && (day d <=? _days_in_month (year d) (month d)))
    eqn:Hd; [|discriminate].
  intros _. apply andb_true_iff in Hy, Hm, Hd. lia.
Qed.

Lemma month_cases (m : Z) :
  1 <= m <= 12 ->
  m = 1 \/ m = 2 \/ m = 3 \/ m = 4 \/ m = 5 \/ m = 6 \/ m = 7 \/ m = 8
  \/ m = 9 \/ m = 10 \/ m = 11 \/ m = 12.
Proof. lia. Qed.

Ltac split_month H :=
  let C := fresh "C" in
  pose proof (month_cases _ H) as C;
  repeat (destruct C as [C | C]; [subst | ]); [ .. | subst ].

(** Look the month up in the tables, leaving the sums alone. *)
Ltac month_tables :=
  cbv [_DAYS_BEFORE_MONTH _DAYS_IN_MONTH nth Z.to_nat Pos.to_nat Pos.iter_op
       Init.Nat.add Z.eqb Z.ltb Z.compare Pos.compare Pos.compare_cont
       Pos.eqb andb] in *.

(** Every failure of a date construction is a [ValueError]. *)
Lemma date_new_raises (y m d : Z) (e : exn) :
  date_new y m d = Raise e -> e = ValueError.
Proof.
  unfold date_new, _check_date_fields.
  repeat match goal with |- context [if ?b then _ else _] => destruct b end;
    simpl; congruence.
Qed.

Lemma replace_year_leap_day (d : date) (y : Z) :
  leap_day d = true -> _is_leap y = false ->
  replace_year d y = Raise ValueError.
Proof.
  unfold leap_day. intros Hl Hy. apply andb_true_iff in Hl as [Hm Hd].
  apply Z.eqb_eq in Hm, Hd.
  unfold replace_year, date_new, _check_date_fields. rewrite Hm, Hd.
  unfold _days_in_month. rewrite Hy. simpl.
  destruct (negb ((MINYEAR <=? y) && (y <=? MAXYEAR))); reflexivity.
Qed.

Lemma replace_year_ok (d now : date) :
  valid d = true -> valid now = true ->
  (leap_day d = true -> _is_leap (year now) = true) ->
  replace_year d (year now) = Ok (mkdate (year now) (month d) (day d)).
Proof.
  intros Hd Hn Hl. apply valid_fields in Hd as (_ & Hm & Hday).
  apply valid_fields in Hn as (Hy & _ & _).
  unfold replace_year, date_new, _check_date_fields.
  replace ((MINYEAR <=? year now) && (year now <=? MAXYEAR)) with true
    by (symmetry; apply andb_true_iff; lia).
  replace ((1 <=? month d) && (month d <=? 12)) with true
    by (symmetry; apply andb_true_iff; lia).
  replace ((1 <=? day d) && (day d <=? _days_in_month (year now) (month d)))
    with true; [reflexivity|].
  symmetry; apply andb_true_iff. split; [lia|]. apply Z.leb_le.
  unfold leap_day in Hl. unfold _days_in_month in *.
  destruct (month d =? 2) eqn:E2.
  - apply Z.eqb_eq in E2. rewrite E2 in *. simpl in *.
    destruct (_is_leap (year now)).
    + destruct (_is_leap (year d)); lia.
    + destruct (day d =? 29) eqn:E29.
      * specialize (Hl eq_refl). discriminate.
      * apply Z.eqb_neq in E29. destruct (_is_leap (year d)); lia.
  - simpl in *. lia.
Qed.

(** Within one year the day count grows with the (month, day) pair. *)
Lemma days_before_month_lt (y m1 d1 m2 d2 : Z) :
  1 <= m1 <= 12 -> 1 <= m2 <= 12 ->
  d1 <= _days_in_month y m1 -> 1 <= d2 -> m1 < m2 ->
  _days_before_month y m1 + d1 < _days_before_month y m2 + d2.
Proof.
  intros H1 H2 Hd1 Hd2 Hlt.
  unfold _days_before_month, _days_in_month in *.
  destruct (_is_leap y);
    split_month H1; split_month H2; month_tables; lia.
Qed.

Lemma toordinal_lt (a b : date) :
  valid a = true -> valid b = true -> year a = year b ->
  date_lt a b = true -> toordinal a < toordinal b.
Proof.
  intros Ha Hb Hy Hlt.
  apply valid_fields in Ha as (_ & Hma & Hda).
  apply valid_fields in Hb as (_ & Hmb & Hdb).
  unfold date_lt in Hlt. rewrite Hy in *.
  rewrite Z.ltb_irrefl, Z.eqb_refl in Hlt. simpl in Hlt.
  unfold toordinal, _ymd2ord. rewrite Hy.
  apply orb_true_iff in Hlt as [Hlt | Hlt].
  - apply Z.ltb_lt in Hlt.
    pose proof (days_before_month_lt (year b) (month a) (day a) (month b)
                  (day b) Hma Hmb (proj2 Hda) (proj1 Hdb) Hlt).
    lia.
  - apply andb_true_iff in Hlt as [E Hlt].
    apply Z.eqb_eq in E. apply Z.ltb_lt in Hlt. rewrite E. lia.
Qed.

(** The day of the year lies between 1 and 366. *)
Lemma day_of_year_bounds (y m d : Z) :
  1 <= m <= 12 -> 1 <= d <= _days_in_month y m ->
  1 <= _days_before_month y m + d <= 366.
Proof.
  intros Hm Hd.
  unfold _days_before_month, _days_in_month in *.
  destruct (_is_leap y); split_month Hm; month_tables; lia.
Qed.

(** Two dates of one year are less than a year apart. *)
Lemma toordinal_same_year (a b : date) :
  valid a = true -> valid b = true -> year a = year b ->
  toordinal a - toordinal b <= 365.
Proof.
  intros Ha Hb Hy.
  apply valid_fields in Ha as (_ & Hma & Hda).
  apply valid_fields in Hb as (_ & Hmb & Hdb).
  pose proof (day_of_year_bounds _ _ _ Hma Hda).
  pose proof (day_of_year_bounds _ _ _ Hmb Hdb).
  unfold toordinal, _ymd2ord. rewrite Hy in *. lia.
Qed.

End Calendar.

(** ** Verbatim occurrence *)

Lemma prefix_append (fragment s : string) :
  String.prefix fragment s = true
  <-> exists post, s = (fragment ++ post)%string.
Proof.
  revert s. induction fragment as [|c fragment IH]; intros s.
  - split; [intros _; now exists s|intros _; now destruct s].
  - destruct s as [|a s]; simpl.
    + split; [discriminate|intros [post H]; discriminate].
    + destruct (ascii_dec c a) as [->|Hne].
      * rewrite IH. split; intros [post H]; exists post; congruence.
      * split; [discriminate|intros [post H]; congruence].
Qed.

Lemma contains_step (fragment s : string) :
  contains fragment s
  = String.prefix fragment s
    || match s with
       | EmptyString => false
       | String _ s' => contains fragment s'
       end.
Proof. destruct s; reflexivity. Qed.

(** [contains] decides that the text is some prefix, then the fragment, then
    some rest. *)
Lemma contains_occurs (fragment s : string) :
  contains fragment s = true
  <-> exists pre post, s = (pre ++ fragment ++ post)%string.
Proof.
  induction s as [|a s IH];
    rewrite contains_step, orb_true_iff, prefix_append.
  - split.
    + intros [[post H] | H]; [|discriminate]. now exists EmptyString, post.
    + intros (pre & post & H). left. destruct pre; [now exists post|].
      discriminate.
  - rewrite IH. split.
    + intros [[post H] | (pre & post & H)].
      * now exists EmptyString, post.
      * exists (String a pre), post. simpl. now rewrite H.
    + intros (pre & post & H). destruct pre as [|b pre].
      * left. now exists post.
      * right. exists pre, post. simpl in H. congruence.
Qed.

(** ** Lemmas on [LIKE] *)

Section Like.

Local Open Scope char_scope.

(** One step of [%]: it matches the empty run, or one character and then
    again. *)
Lemma sql_like_percent (pattern s : string) :
  sql_like (String "%" pattern) s
  = sql_like pattern s
    || match s with
       | EmptyString => false
       | String _ s' => sql_like (String "%" pattern) s'
       end.
Proof. destruct s; reflexivity. Qed.

Lemma sql_like_percent_any (s : string) : sql_like "%" s = true.
Proof.
  induction s as [|a s IH]; [reflexivity|].
  rewrite sql_like_percent. rewrite IH. apply orb_true_r.
Qed.

(** The pattern of the empty fragment matches every text. *)
Lemma sql_like_empty_fragment (s : string) :
  sql_like (like_pattern "") s = true.
Proof.
  change (like_pattern "") with (String "%" "%").
  rewrite sql_like_percent, sql_like_percent_any. reflexivity.
Qed.



End Like.

(** ** Lemmas on the queries and the loops *)

Lemma append_all_app (rows response : list Contact.t) :
  append_all response rows = response ++ rows.
Proof.
  unfold append_all. revert response.
  induction rows as [|n rows IH]; intros response; simpl.
  - symmetry. apply app_nil_r.
  - rewrite IH, <- app_assoc. reflexivity.
Qed.

(** The guard [if rows:] changes nothing: appending no rows is no change. *)
Lemma guarded_append_all (rows response : list Contact.t) :
  (if truthy rows then append_all response rows else response)
  = response ++ rows.
Proof.
  destruct rows; simpl truthy; [symmetry; apply app_nil_r|].
  apply append_all_app.
Qed.

Lemma filter_filter {A : Type} (f g : A -> bool) (l : list A) :
  filter f (filter g l) = filter (fun x => g x && f x) l.
Proof.
  induction l as [|x l IH]; simpl; [reflexivity|].
  destruct (g x); simpl; [destruct (f x)|]; rewrite IH; reflexivity.
Qed.

(** The query of one column is the owner's rows that match on it. *)
Lemma query_all_matches (some_info : string) (field : Contact.t -> string)
    (db : Session) (user : User.t) :
  query_all (fun c => sql_like (like_pattern some_info) (field c)
                      && (Contact.user_id c =? User.id user)) db
  = matches_on some_info field db user.
Proof.
  unfold query_all, matches_on, owned_contacts. rewrite filter_filter.
  apply filter_ext. intros c. unfold field_matches, owned_by.
  apply andb_comm.
Qed.

Lemma get_contact_by_some_info_eq (some_info : string) (db : Session)
    (user : User.t) :
  get_contact_by_some_info some_info db user
  = matches_on some_info Contact.first_name db user
    ++ matches_on some_info Contact.second_name db user
    ++ matches_on some_info Contact.email db user.
Proof.
  unfold get_contact_by_some_info. cbv zeta.
  rewrite !guarded_append_all, !query_all_matches.
  simpl. rewrite <- app_assoc. reflexivity.
Qed.

Lemma filter_id_absent (rows : list Contact.t) (cid : Z)
    (P : Contact.t -> bool) :
  ~ In cid (map Contact.id rows) ->
  filter (fun r => Contact.id r =? cid) (filter P rows) = [].
Proof.
  induction rows as [|r rows IH]; intros Hnotin; simpl; [reflexivity|].
  simpl in Hnotin.
  assert (Hr : (Contact.id r =? cid) = false)
    by (apply Z.eqb_neq; intros E; apply Hnotin; now left).
  assert (Hrest : ~ In cid (map Contact.id rows))
    by (intros Hc; apply Hnotin; now right).
  destruct (P r); simpl; [rewrite Hr|]; now apply IH.
Qed.

(** Under the primary key a row is the only one with its identifier. *)
Lemma filter_id_unique (rows : list Contact.t) (c : Contact.t)
    (P : Contact.t -> bool) :
  NoDup (map Contact.id rows) -> In c rows ->
  filter (fun r => Contact.id r =? Contact.id c) (filter P rows)
  = if P c then [c] else [].
Proof.
  induction rows as [|r rows IH]; intros Hnd Hin; [destruct Hin|].
  simpl in Hnd. inversion Hnd as [|? ? Hnotin Hnd']; subst.
  destruct Hin as [-> | Hin].
  - simpl. destruct (P c); simpl.
    + rewrite Z.eqb_refl, filter_id_absent by assumption. reflexivity.
    + now apply filter_id_absent.
  - assert (Hr : (Contact.id r =? Contact.id c) = false).
    { apply Z.eqb_neq. intros E. apply Hnotin. rewrite E. now apply in_map. }
    simpl. destruct (P r); simpl; [rewrite Hr|]; now apply IH.
Qed.

Lemma occurrences_app (cid : Z) (l1 l2 : list Contact.t) :
  occurrences cid (l1 ++ l2) = (occurrences cid l1 + occurrences cid l2)%nat.
Proof. unfold occurrences. rewrite filter_app. apply length_app. Qed.

(** Under the primary key one column contributes a row of the owner once
    when it matches and not at all when it does not. *)
Lemma occurrences_matches_on (some_info : string)
    (field : Contact.t -> string) (db : Session) (user : User.t)
    (c : Contact.t) :
  primary_key db -> In c (owned_contacts db user) ->
  occurrences (Contact.id c) (matches_on some_info field db user)
  = if field_matches some_info field c then 1%nat else 0%nat.
Proof.
  intros Hpk Hin. unfold occurrences, matches_on, owned_contacts in *.
  apply filter_In in Hin as [Hin Hown].
  rewrite (filter_filter _ (owned_by user) (contacts_table db)).
  rewrite filter_id_unique by assumption.
  rewrite Hown. simpl. destruct (field_matches some_info field c); reflexivity.
Qed.

(** The count of a row of the owner in the search result. *)
Lemma occurrences_get_contact_by_some_info (some_info : string)
    (db : Session) (user : User.t) (c : Contact.t) :
  primary_key db -> In c (owned_contacts db user) ->
  occurrences (Contact.id c) (get_contact_by_some_info some_info db user)
  = matching_fields some_info c.
Proof.
  intros Hpk Hin. rewrite get_contact_by_some_info_eq, !occurrences_app.
  rewrite !occurrences_matches_on by assumption.
  unfold matching_fields. apply Nat.add_assoc.
Qed.

(** *** The birthday loop *)

(** When the condition is defined on every contact, the loop is a filter. *)
Lemma birthday_loop_filter (days : Z) (now : datetime.date)
    (hit : Contact.t -> bool) (all_contacts response : list Contact.t) :
  (forall c, In c all_contacts -> in_window days now c = Ok (hit c)) ->
  birthday_loop days now all_contacts response
  = Ok (response ++ filter hit all_contacts).
Proof.
  revert response.
  induction all_contacts as [|cont rest IH]; intros response Hall; simpl.
  - now rewrite app_nil_r.
  - rewrite (Hall cont) by now left. simpl.
    rewrite IH by (intros c Hc; apply Hall; now right).
    destruct (hit cont); [rewrite <- app_assoc|]; reflexivity.
Qed.

(** A contact on which the condition raises makes the loop raise. *)
Lemma birthday_loop_raises (days : Z) (now : datetime.date)
    (all_contacts response : list Contact.t) (c : Contact.t) (e : exn) :
  In c all_contacts -> in_window days now c = Raise e ->
  exists e', birthday_loop days now all_contacts response = Raise e'.
Proof.
  revert response.
  induction all_contacts as [|cont rest IH]; intros response Hin Hc;
    [destruct Hin|].
  simpl. destruct Hin as [-> | Hin].
  - rewrite Hc. simpl. now exists e.
  - destruct (in_window days now cont) as [hit|e0]; simpl.
    + now apply IH.
    + now exists e0.
Qed.

(** The loop raises only what the condition raises on some contact. *)
Lemma birthday_loop_raise_origin (days : Z) (now : datetime.date)
    (all_contacts response : list Contact.t) (e : exn) :
  birthday_loop days now all_contacts response = Raise e ->
  exists c, In c all_contacts /\ in_window days now c = Raise e.
Proof.
  revert response.
  induction all_contacts as [|cont rest IH]; intros response H; simpl in H;
    [discriminate|].
  destruct (in_window days now cont) as [hit|e0] eqn:E; simpl in H.
  - destruct (IH _ H) as (c & Hc & Hr). exists c. split; [now right|exact Hr].
  - exists cont. split; [now left|]. congruence.
Qed.

(** Whatever the loop returns was in the response already or passed the
    condition. *)
Lemma birthday_loop_members (days : Z) (now : datetime.date)
    (all_contacts response result : list Contact.t) :
  birthday_loop days now all_contacts response = Ok result ->
  forall x, In x result ->
    In x response \/ (In x all_contacts /\ in_window days now x = Ok true).
Proof.
  revert response.
  induction all_contacts as [|cont rest IH]; intros response H x Hx;
    simpl in H.
  - injection H as <-. now left.
  - destruct (in_window days now cont) as [hit|e0] eqn:E; simpl in H;
      [|discriminate].
    destruct (IH _ H x Hx) as [Hr | [Hr Hw]].
    + destruct hit; [|now left].
      apply in_app_or in Hr as [Hr | [<- | []]]; [now left|].
      right. split; [now left|exact E].
    + right. split; [now right|exact Hw].
Qed.

(** *** The condition of the loop *)

(** The condition after the year substitution has succeeded. *)
Lemma in_window_replaced (days : Z) (now b : datetime.date) (c : Contact.t) :
  datetime.replace_year (Contact.birthday c) (datetime.year now) = Ok b ->
  in_window days now c
  = if 0 <=? datetime.toordinal b - datetime.toordinal now then
      window <- datetime.timedelta_new days ;;
      Ok (datetime.toordinal b - datetime.toordinal now <=? datetime.days window)
    else Ok false.
Proof. intros Hb. unfold in_window. rewrite Hb. reflexivity. Qed.

Lemma replace_year_value (now b : datetime.date) (c : Contact.t) :
  datetime.replace_year (Contact.birthday c) (datetime.year now) = Ok b ->
  b = birthday_this_year now c.
Proof.
  unfold datetime.replace_year, datetime.date_new, birthday_this_year.
  destruct (datetime._check_date_fields _ _ _); simpl; congruence.
Qed.

Lemma replace_year_valid (d b : datetime.date) (y : Z) :
  datetime.replace_year d y = Ok b ->
  datetime.valid b = true /\ datetime.year b = y.
Proof.
  unfold datetime.replace_year, datetime.date_new, datetime.valid.
  destruct (datetime._check_date_fields y _ _) eqn:E; simpl; [|discriminate].
  intros [= <-]. simpl. rewrite E. split; reflexivity.
Qed.

(** A birthday that has passed this year fails the condition whatever the
    window is: [timedelta(days)] is not evaluated. *)
Lemma in_window_passed (days : Z) (now b : datetime.date) (c : Contact.t) :
  datetime.replace_year (Contact.birthday c) (datetime.year now) = Ok b ->
  datetime.toordinal b < datetime.toordinal now ->
  in_window days now c = Ok false.
Proof.
  intros Hb Hlt. rewrite (in_window_replaced _ _ _ _ Hb).
  replace (0 <=? datetime.toordinal b - datetime.toordinal now) with false
    by (symmetry; apply Z.leb_gt; lia).
  reflexivity.
Qed.

(** With the window in the range of [timedelta] and the year substitution
    defined, the condition is the test of the spec. *)
Lemma in_window_defined (days : Z) (now : datetime.date) (c : Contact.t) :
  datetime.valid now = true ->
  datetime.valid (Contact.birthday c) = true ->
  (leap_day (Contact.birthday c) = true ->
   datetime._is_leap (datetime.year now) = true) ->
  delta now c < 0 \/ Z.abs days <= 999999999 ->
  in_window days now c = Ok ((0 <=? delta now c) && (delta now c <=? days)).
Proof.
  intros Hn Hv Hl Hd.
  pose proof (datetime_replace := replace_year_ok _ _ Hv Hn Hl).
  rewrite (in_window_replaced _ _ _ _ datetime_replace).
  change (datetime.toordinal _ - datetime.toordinal now) with (delta now c).
  destruct (0 <=? delta now c) eqn:E0; [|reflexivity].
  apply Z.leb_le in E0. destruct Hd as [Hd | Hd]; [lia|].
  unfold datetime.timedelta_new.
  replace (Z.abs days <=? 999999999) with true
    by (symmetry; now apply Z.leb_le).
  reflexivity.
Qed.

(** A February 29 in a year that is not leap: the year substitution
    raises. *)
Lemma in_window_leap_day (days : Z) (now : datetime.date) (c : Contact.t) :
  leap_day (Contact.birthday c) = true ->
  datetime._is_leap (datetime.year now) = false ->
  in_window days now c = Raise ValueError.
Proof.
  intros Hl Hy. unfold in_window.
  rewrite (replace_year_leap_day _ _ Hl Hy). reflexivity.
Qed.

(** With the window in the range of [timedelta], the condition raises
    nothing but the [ValueError] of the year substitution. *)
Lemma in_window_raises_ValueError (days : Z) (now : datetime.date)
    (c : Contact.t) (e : exn) :
  Z.abs days <= 999999999 ->
  in_window days now c = Raise e -> e = ValueError.
Proof.
  intros Hd. unfold in_window, datetime.replace_year.
  destruct (datetime.date_new _ _ _) as [b|e0] eqn:E; simpl.
  - unfold datetime.timedelta_new.
    replace (Z.abs days <=? 999999999) with true
      by (symmetry; now apply Z.leb_le).
    destruct (datetime.timedelta_le _ _); simpl; discriminate.
  - intros [= <-]. now apply date_new_raises in E.
Qed.

(** ** [update_contact] *)

(** What a successful [update_contact] returns: the found row with the six
    attributes of the body, and with the row's own identifier as its
    owner reference. *)
Lemma update_contact_found (contact_id : Z) (body : ContactModel.t)
    (db db' : Session) (user : User.t) (c' : Contact.t) :
  update_contact contact_id body db user = (db', Some c') ->
  Contact.id c' = contact_id
  /\ Contact.first_name c' = ContactModel.first_name body
  /\ Contact.second_name c' = ContactModel.second_name body
  /\ Contact.email c' = ContactModel.email body
  /\ Contact.phone c' = ContactModel.phone body
  /\ Contact.birthday c' = ContactModel.birthday body
  /\ Contact.description c' = ContactModel.description body
  /\ Contact.user_id c' = contact_id.
Proof.
  unfold update_contact, query_first.
  destruct (find _ (contacts_table db)) as [c|] eqn:E; [|discriminate].
  apply find_some in E as [_ E]. apply andb_true_iff in E as [E _].
  apply Z.eqb_eq in E. intros [= _ <-]. simpl. now repeat split.
Qed.

(** C1, on the code: updating contact 2 of user 1 replaces the six
    attributes by those of the body but sets the owner reference to the
    contact's identifier 2; user 1, who could read the contact before the
    call, no longer finds it afterwards. *)
Theorem update_contact_reassigns_owner :
  let updated :=
    Contact.mk 2 "User4" "Example" "example@gmail.com" "0671122456"
      (datetime.mkdate 1995 8 19) "Some info for testing" 2 in
  get_contact 2 store_one user1
    = Some (contact_user 2 (datetime.mkdate 1988 3 25))
  /\ update_contact 2 body4 store_one user1
     = (mkSession [updated], Some updated)
  /\ Contact.user_id updated <> User.id user1
  /\ get_contact 2 (fst (update_contact 2 body4 store_one user1)) user1 = None.
Proof. cbv zeta. repeat split. discriminate. Qed.

(** ** [get_contact_by_some_info] *)

(** C2, on the code: the fragment [_] occurs in no column of the one stored
    contact, yet the search returns the contact, once per column. *)
Theorem get_contact_by_some_info_underscore :
  let c := contact_user 2 (datetime.mkdate 1988 3 25) in
  get_contact_by_some_info "_" store_one user1 = [c; c; c]
  /\ contains "_" (Contact.first_name c) = false
  /\ contains "_" (Contact.second_name c) = false
  /\ contains "_" (Contact.email c) = false.
Proof. cbv zeta. repeat split. Qed.

(** C3, on the code: [_] and [%] in the fragment are read as wildcards of
    [LIKE]; the fragments [U_er] and [U%r] match the first name [User], in
    which neither occurs verbatim, and the search returns its contact. *)
Theorem like_pattern_reads_wildcards :
  let c := contact_user 2 (datetime.mkdate 1988 3 25) in
  field_matches "U_er" Contact.first_name c = true
  /\ contains "U_er" (Contact.first_name c) = false
  /\ get_contact_by_some_info "U_er" store_one user1 = [c]
  /\ field_matches "U%r" Contact.first_name c = true
  /\ contains "U%r" (Contact.first_name c) = false
  /\ get_contact_by_some_info "U%r" store_one user1 = [c].
Proof. cbv zeta. repeat split. Qed.

(** The scenario of the tests: one contact has the email searched for. *)
Example get_contact_by_some_info_email :
  get_contact_by_some_info "example1@gmail.com" store_three user1
  = [contact_user1 2 (datetime.mkdate 1990 3 20)].
Proof. reflexivity. Qed.

(** Every returned contact belongs to the user and matches the pattern on
    one of the three columns. *)
Lemma get_contact_by_some_info_members (some_info : string) (db : Session)
    (user : User.t) (c : Contact.t) :
  In c (get_contact_by_some_info some_info db user) ->
  Contact.user_id c = User.id user
  /\ (field_matches some_info Contact.first_name c = true
      \/ field_matches some_info Contact.second_name c = true
      \/ field_matches some_info Contact.email c = true).
Proof.
  rewrite get_contact_by_some_info_eq. unfold matches_on, owned_contacts.
  intros H. repeat (apply in_app_or in H as [H | H]);
    apply filter_In in H as [H Hm]; apply filter_In in H as [_ Ho];
    apply Z.eqb_eq in Ho; auto.
Qed.

(** In terms of the store's own match: the result is the rows of the owner
    that the pattern matches on the first name, then those on the second
    name, then those on the email, each in store-native order; under the
    primary key a contact of the owner that the pattern matches on exactly
    two of the three columns occurs exactly twice. *)
Lemma get_contact_by_some_info_concatenation (some_info : string)
    (db : Session) (user : User.t) :
  get_contact_by_some_info some_info db user
  = matches_on some_info Contact.first_name db user
    ++ matches_on some_info Contact.second_name db user
    ++ matches_on some_info Contact.email db user
  /\ (primary_key db ->
      forall c, In c (owned_contacts db user) ->
        matching_fields some_info c = 2%nat ->
        occurrences (Contact.id c)
          (get_contact_by_some_info some_info db user) = 2%nat).
Proof.
  split; [apply get_contact_by_some_info_eq|].
  intros Hpk c Hin H2.
  now rewrite occurrences_get_contact_by_some_info.
Qed.

Lemma primary_key_store_three : primary_key store_three.
Proof.
  unfold primary_key. simpl.
  repeat constructor; simpl; intuition discriminate.
Defined.

(** The fragment [xample] matches the second name and the email of the
    first contact of the tests, not its first name. *)
Lemma get_contact_by_some_info_concatenation_witness :
  occurrences 1 (get_contact_by_some_info "xample" store_three user1) = 2%nat.
Proof.
  apply (proj2 (get_contact_by_some_info_concatenation "xample" store_three
                  user1) primary_key_store_three
               (contact_user 1 (datetime.mkdate 1988 3 25))).
  - simpl. left. reflexivity.
  - reflexivity.
Defined.

(** C4, on the code: the fragment [a_] occurs verbatim in exactly two of the
    three searched columns of the one stored contact, in the second name
    [a_] and in the email [a_@x] but not in the first name [ab]; yet the
    search returns the contact three times, not twice: the first-name
    query returns it too, since [_] in the pattern stands for the [b]. *)
Theorem get_contact_by_some_info_two_fields_thrice :
  let c :=
    Contact.mk 1 "ab" "a_" "a_@x" "0600000000" (datetime.mkdate 1993 5 6)
      "Underscores" 1 in
  contains "a_" (Contact.first_name c) = false
  /\ contains "a_" (Contact.second_name c) = true
  /\ contains "a_" (Contact.email c) = true
  /\ get_contact_by_some_info "a_" store_underscore user1 = [c; c; c]
  /\ occurrences (Contact.id c)
       (get_contact_by_some_info "a_" store_underscore user1) = 3%nat.
Proof. cbv zeta. repeat split. Qed.

(** C7: for the empty fragment the result is the owner's contacts three
    times over, once per searched column; under the primary key every
    contact of the owner occurs exactly three times. *)
Theorem get_contact_by_some_info_empty_fragment (db : Session)
    (user : User.t) :
  get_contact_by_some_info "" db user
  = owned_contacts db user ++ owned_contacts db user ++ owned_contacts db user
  /\ (primary_key db ->
      forall c, In c (owned_contacts db user) ->
        occurrences (Contact.id c) (get_contact_by_some_info "" db user)
        = 3%nat).
Proof.
  assert (Hall : forall field,
            matches_on "" field db user = owned_contacts db user).
  { intros field. unfold matches_on.
    rewrite (filter_ext _ (fun _ => true)).
    - induction (owned_contacts db user) as [|x l IH]; simpl; congruence.
    - intros c. apply sql_like_empty_fragment. }
  split.
  - rewrite get_contact_by_some_info_eq, !Hall. reflexivity.
  - intros Hpk c Hin. rewrite occurrences_get_contact_by_some_info by assumption.
    unfold matching_fields, field_matches.
    rewrite !sql_like_empty_fragment. reflexivity.
Qed.

Lemma get_contact_by_some_info_empty_fragment_witness :
  occurrences 2 (get_contact_by_some_info "" store_three user1) = 3%nat.
Proof.
  apply (proj2 (get_contact_by_some_info_empty_fragment store_three user1)
               primary_key_store_three
               (contact_user1 2 (datetime.mkdate 1990 3 20))).
  simpl. right. left. reflexivity.
Defined.

(** ** [get_birthday_per_week] *)

(** The condition holds only with the year substitution done and the
    difference within the window. *)
Lemma in_window_true (days : Z) (now : datetime.date) (c : Contact.t) :
  in_window days now c = Ok true ->
  datetime.replace_year (Contact.birthday c) (datetime.year now)
  = Ok (birthday_this_year now c)
  /\ 0 <= delta now c <= days.
Proof.
  intros H.
  destruct (datetime.replace_year (Contact.birthday c) (datetime.year now))
    as [b|e] eqn:Hb.
  - pose proof (replace_year_value _ _ _ Hb) as ->.
    split; [reflexivity|].
    rewrite (in_window_replaced _ _ _ _ Hb) in H.
    change (datetime.toordinal _ - datetime.toordinal now)
      with (delta now c) in H.
    destruct (0 <=? delta now c) eqn:E0; [|discriminate].
    apply Z.leb_le in E0.
    destruct (datetime.timedelta_new days) as [w|e] eqn:Ew; [|discriminate].
    unfold datetime.timedelta_new in Ew.
    destruct (Z.abs days <=? 999999999); [|discriminate].
    injection Ew as <-. simpl in H. injection H as H.
    apply Z.leb_le in H. lia.
  - unfold in_window in H. rewrite Hb in H. discriminate.
Qed.

Lemma filter_nil_all {A : Type} (f : A -> bool) (l : list A) :
  filter f l = [] -> forall x, In x l -> f x = false.
Proof.
  induction l as [|a l IH]; intros H x Hx; [destruct Hx|].
  simpl in H. destruct (f a) eqn:E; [discriminate|].
  destruct Hx as [<- | Hx]; [exact E|now apply IH].
Qed.

Lemma filter_none {A : Type} (f : A -> bool) (l : list A) :
  (forall x, In x l -> f x = false) -> filter f l = [].
Proof.
  induction l as [|a l IH]; intros H; simpl; [reflexivity|].
  rewrite (H a) by now left. apply IH. intros x Hx. apply H. now right.
Qed.

(** The general form of the window result: when the year substitution is
    defined on the owner's contacts and [timedelta(days)] is, or is not
    needed, the function returns the window of the spec. *)
Lemma get_birthday_per_week_defined (days : Z) (db : Session)
    (user : User.t) (now : datetime.date) :
  datetime.valid now = true ->
  birthdays_valid db user ->
  no_leap_day_clash db user now ->
  (forall c, In c (owned_contacts db user) ->
     delta now c < 0 \/ Z.abs days <= 999999999) ->
  get_birthday_per_week days db user now
  = Ok (birthday_window days db user now).
Proof.
  intros Hn Hv Hl Hd. unfold get_birthday_per_week, birthday_window.
  cbv zeta. fold (owned_contacts db user).
  change (query_all (fun c => Contact.user_id c =? User.id user) db)
    with (owned_contacts db user).
  rewrite (birthday_loop_filter days now
             (fun c => (0 <=? delta now c) && (delta now c <=? days))).
  - reflexivity.
  - intros c Hc. apply in_window_defined; auto.
    now apply Hl.
Qed.

(** C5, as stated, fails: with a contact born on a February 29 and a
    current year that is not leap the call raises and returns no sequence,
    and so it does with a window above the range of [timedelta] and a
    birthday that is still to come. *)
Lemma get_birthday_per_week_window_counterexample :
  0 <= 7
  /\ get_birthday_per_week 7 store_leap user1 (datetime.mkdate 2023 2 25)
     = Raise ValueError
  /\ 0 <= 1000000000
  /\ get_birthday_per_week 1000000000 store_one user1
       (datetime.mkdate 2023 3 20)
     = Raise OverflowError.
Proof. repeat split; discriminate. Qed.

(** C5, amended: for a window [0 <= days <= 999999999], when no contact of
    the owner has a February 29 birthday in a current year that is not
    leap, the function returns exactly the owner's contacts with
    [0 <= delta <= days], in store-native order.  ([valid] and
    [birthdays_valid] hold of every [date] object of Python.) *)
Theorem get_birthday_per_week_window (days : Z) (db : Session)
    (user : User.t) (now : datetime.date) :
  0 <= days <= 999999999 ->
  datetime.valid now = true ->
  birthdays_valid db user ->
  no_leap_day_clash db user now ->
  get_birthday_per_week days db user now
  = Ok (birthday_window days db user now).
Proof.
  intros Hd Hn Hv Hl. apply get_birthday_per_week_defined; auto.
  intros c _. right. lia.
Qed.

Lemma birthdays_valid_store_three : birthdays_valid store_three user1.
Proof. intros c [<- | [<- | [<- | []]]]; reflexivity. Defined.

Lemma no_leap_day_store_three (now : datetime.date) :
  no_leap_day_clash store_three user1 now.
Proof. intros c [<- | [<- | [<- | []]]]; discriminate. Defined.

(** The scenario of the tests: birthdays 8, 3 and 1 days ahead, window 5. *)
Lemma get_birthday_per_week_window_witness :
  get_birthday_per_week 5 store_three user1 (datetime.mkdate 2023 3 17)
  = Ok [contact_user1 2 (datetime.mkdate 1990 3 20);
        contact_user2 3 (datetime.mkdate 1992 3 18)].
Proof.
  apply (get_birthday_per_week_window 5 store_three user1
           (datetime.mkdate 2023 3 17)).
  - lia.
  - reflexivity.
  - exact birthdays_valid_store_three.
  - apply no_leap_day_store_three.
Defined.

(** C6: a contact whose birthday with the year of today falls before today
    (in particular on the day before today) fails the condition for every
    window, and no sequence that the function returns contains it, also
    when today plus the window reaches into the next year. *)
Theorem passed_birthday_excluded (days : Z) (db : Session) (user : User.t)
    (now b : datetime.date) (c : Contact.t) :
  datetime.valid now = true ->
  datetime.replace_year (Contact.birthday c) (datetime.year now) = Ok b ->
  datetime.date_lt b now = true
  \/ datetime.toordinal b = datetime.toordinal now - 1 ->
  in_window days now c = Ok false
  /\ forall response,
       get_birthday_per_week days db user now = Ok response ->
       ~ In c response.
Proof.
  intros Hn Hb Hlt.
  assert (Hord : datetime.toordinal b < datetime.toordinal now).
  { destruct Hlt as [Hlt | Hlt]; [|lia].
    destruct (replace_year_valid _ _ _ Hb) as [Hvb Hyb].
    now apply toordinal_lt. }
  pose proof (in_window_passed days _ _ _ Hb Hord) as Hc.
  split; [exact Hc|].
  intros response Hr Hin. unfold get_birthday_per_week in Hr.
  destruct (birthday_loop_members _ _ _ _ _ Hr c Hin) as [[] | [_ Ht]].
  congruence.
Qed.

(** On December 30 with a window of 7 days the birthday of January 2 is
    left out and that of December 31 is returned. *)
Lemma passed_birthday_excluded_witness :
  in_window 7 (datetime.mkdate 2023 12 30)
    (contact_user 1 (datetime.mkdate 1990 1 2)) = Ok false
  /\ ~ In (contact_user 1 (datetime.mkdate 1990 1 2))
          [contact_user1 2 (datetime.mkdate 1991 12 31)].
Proof.
  destruct (passed_birthday_excluded 7 store_new_year user1
              (datetime.mkdate 2023 12 30) (datetime.mkdate 2023 1 2)
              (contact_user 1 (datetime.mkdate 1990 1 2))
              eq_refl eq_refl (or_introl eq_refl)) as [Hc Hout].
  split; [exact Hc|].
  apply (Hout [contact_user1 2 (datetime.mkdate 1991 12 31)]).
  reflexivity.
Defined.

(** C8, as stated, fails: on February 25 of 2023 no contact of user 1 lies
    in the window of 0 days, and the call with [days = 0] raises, because
    the one contact was born on a February 29. *)
Lemma empty_result_counterexample :
  birthday_window 0 store_leap user1 (datetime.mkdate 2023 2 25) = []
  /\ get_birthday_per_week 0 store_leap user1 (datetime.mkdate 2023 2 25)
     = Raise ValueError.
Proof. split; reflexivity. Qed.

(** C8, amended: when no contact of the owner matches the pattern on any of
    the three columns, the search returns the empty sequence (it has no
    raising step at all); when no contact of the owner lies in the window,
    the birthday function returns the empty sequence without raising,
    provided that [days >= -999999999] and that no contact of the owner has
    a February 29 birthday in a current year that is not leap; under the
    same proviso on February 29 it does not raise for [days = 0]. *)
Theorem empty_result_without_error :
  (forall some_info db user,
     (forall c, In c (owned_contacts db user) ->
        matching_fields some_info c = 0%nat) ->
     get_contact_by_some_info some_info db user = [])
  /\ (forall days db user now,
        -999999999 <= days ->
        datetime.valid now = true ->
        birthdays_valid db user ->
        no_leap_day_clash db user now ->
        birthday_window days db user now = [] ->
        get_birthday_per_week days db user now = Ok [])
  /\ (forall db user now,
        datetime.valid now = true ->
        birthdays_valid db user ->
        no_leap_day_clash db user now ->
        get_birthday_per_week 0 db user now
        = Ok (birthday_window 0 db user now)).
Proof.
  split; [|split].
  - intros some_info db user Hnone.
    assert (Hcol : forall field,
              (forall c, In c (owned_contacts db user) ->
                 field_matches some_info field c = false) ->
              matches_on some_info field db user = []).
    { intros field Hf. unfold matches_on. now apply filter_none. }
    rewrite get_contact_by_some_info_eq.
    rewrite !Hcol; [reflexivity| | |];
      intros c Hc; specialize (Hnone c Hc); unfold matching_fields in Hnone;
      destruct (field_matches some_info Contact.first_name c),
               (field_matches some_info Contact.second_name c),
               (field_matches some_info Contact.email c);
      simpl in Hnone; congruence.
  - intros days db user now Hd Hn Hv Hl Hempty.
    rewrite <- Hempty. apply get_birthday_per_week_defined; auto.
    intros c Hc.
    pose proof (filter_nil_all _ _ Hempty c Hc) as Hout. simpl in Hout.
    destruct (Z.ltb_spec (delta now c) 0) as [Hneg | Hpos]; [now left|].
    right.
    assert (Hle : delta now c <= 365).
    { pose proof (replace_year_ok _ _ (Hv c Hc) Hn (Hl c Hc)) as Hb.
      destruct (replace_year_valid _ _ _ Hb) as [Hvb Hyb].
      unfold delta. now apply toordinal_same_year. }
    apply andb_false_iff in Hout as [Hout | Hout].
    + apply Z.leb_gt in Hout. lia.
    + apply Z.leb_gt in Hout. lia.
  - intros db user now Hn Hv Hl.
    apply get_birthday_per_week_defined; auto.
    intros c _. right. simpl. lia.
Qed.

(** On March 17 the three contacts of the tests, born on March 25, 20 and
    18, are outside a window of 0 days, and [zzz] occurs in none of their
    columns. *)
Lemma empty_result_without_error_witness :
  get_contact_by_some_info "zzz" store_three user1 = []
  /\ get_birthday_per_week 0 store_three user1 (datetime.mkdate 2023 3 17)
     = Ok []
  /\ get_birthday_per_week 0 store_three user1 (datetime.mkdate 2023 3 20)
     = Ok [contact_user1 2 (datetime.mkdate 1990 3 20)].
Proof.
  destruct empty_result_without_error as (Hfind & Hnone & Hzero).
  split; [|split].
  - apply Hfind. intros c [<- | [<- | [<- | []]]]; reflexivity.
  - apply Hnone.
    + lia.
    + reflexivity.
    + exact birthdays_valid_store_three.
    + apply no_leap_day_store_three.
    + reflexivity.
  - apply (Hzero store_three user1 (datetime.mkdate 2023 3 20)).
    + reflexivity.
    + exact birthdays_valid_store_three.
    + apply no_leap_day_store_three.
Defined.

(** C9: a contact of the user born on a February 29 makes the call raise
    when the current year is not leap: the year substitution raises
    [ValueError] on it, the call returns no sequence, and with [days] in the
    range of [timedelta] the exception of the call is that [ValueError]. *)
Theorem leap_day_birthday_raises (days : Z) (db : Session) (user : User.t)
    (now : datetime.date) (c : Contact.t) :
  In c (contacts_table db) ->
  Contact.user_id c = User.id user ->
  leap_day (Contact.birthday c) = true ->
  datetime._is_leap (datetime.year now) = false ->
  datetime.replace_year (Contact.birthday c) (datetime.year now)
  = Raise ValueError
  /\ (exists e, get_birthday_per_week days db user now = Raise e)
  /\ (Z.abs days <= 999999999 ->
      get_birthday_per_week days db user now = Raise ValueError).
Proof.
  intros Hin Hown Hl Hy.
  assert (Hc : In c (query_all (fun x => Contact.user_id x =? User.id user) db)).
  { apply filter_In. split; [exact Hin|now apply Z.eqb_eq]. }
  pose proof (in_window_leap_day days _ _ Hl Hy) as Hw.
  destruct (birthday_loop_raises days now _ [] c _ Hc Hw) as [e He].
  split; [now apply replace_year_leap_day|].
  split; [now exists e|].
  intros Hd. unfold get_birthday_per_week. cbv zeta. rewrite He.
  destruct (birthday_loop_raise_origin _ _ _ _ _ He) as (x & _ & Hx).
  now rewrite (in_window_raises_ValueError _ _ _ _ Hd Hx).
Qed.

Lemma leap_day_birthday_raises_witness :
  datetime.replace_year (datetime.mkdate 2000 2 29) 2023 = Raise ValueError
  /\ (exists e,
        get_birthday_per_week 7 store_leap user1 (datetime.mkdate 2023 2 25)
        = Raise e)
  /\ (Z.abs 7 <= 999999999 ->
      get_birthday_per_week 7 store_leap user1 (datetime.mkdate 2023 2 25)
      = Raise ValueError).
Proof.
  apply (leap_day_birthday_raises 7 store_leap user1
           (datetime.mkdate 2023 2 25)
           (contact_user 1 (datetime.mkdate 2000 2 29))).
  - simpl. left. reflexivity.
  - reflexivity.
  - reflexivity.
  - reflexivity.
Defined.

(** C10, as stated, fails: with a negative window the call raises on a
    contact born on a February 29 when the year is not leap, and it raises
    when [days] is below the range of [timedelta] and a birthday is still
    to come this year. *)
Lemma negative_window_counterexample :
  -1 < 0
  /\ get_birthday_per_week (-1) store_leap user1 (datetime.mkdate 2023 2 25)
     = Raise ValueError
  /\ -1000000000 < 0
  /\ get_birthday_per_week (-1000000000) store_one user1
       (datetime.mkdate 2023 3 20)
     = Raise OverflowError.
Proof. repeat split. Qed.

(** C10, amended: for a negative window every sequence that the function
    returns is empty, and it does return the empty sequence, without
    raising, when [days >= -999999999] and no contact of the owner has a
    February 29 birthday in a current year that is not leap. *)
Theorem get_birthday_per_week_negative_window (days : Z) (db : Session)
    (user : User.t) (now : datetime.date) :
  days < 0 ->
  (forall response,
     get_birthday_per_week days db user now = Ok response -> response = [])
  /\ (-999999999 <= days ->
      datetime.valid now = true ->
      birthdays_valid db user ->
      no_leap_day_clash db user now ->
      get_birthday_per_week days db user now = Ok []).
Proof.
  intros Hneg. split.
  - intros response Hr. unfold get_birthday_per_week in Hr.
    destruct response as [|x rest]; [reflexivity|]. exfalso.
    destruct (birthday_loop_members _ _ _ _ _ Hr x (or_introl eq_refl))
      as [[] | [_ Ht]].
    apply in_window_true in Ht as [_ Ht]. lia.
  - intros Hd Hn Hv Hl.
    rewrite get_birthday_per_week_defined; auto.
    + f_equal. unfold birthday_window. apply filter_none. intros c _.
      destruct (Z.leb_spec 0 (delta now c)); [|reflexivity].
      apply Z.leb_gt. lia.
    + intros c _. right. lia.
Qed.

Lemma get_birthday_per_week_negative_window_witness :
  get_birthday_per_week (-1) store_three user1 (datetime.mkdate 2023 3 17)
  = Ok [].
Proof.
  apply (proj2 (get_birthday_per_week_negative_window (-1) store_three user1
                  (datetime.mkdate 2023 3 17) eq_refl)).
  - lia.
  - reflexivity.
  - exact birthdays_valid_store_three.
  - apply no_leap_day_store_three.
Defined.

(** * Further properties of the repository and of its handlers *)

(** ** Lookup by identifier *)

(** The row-selection predicate of [get_contact], [update_contact] and
    [remove_contact]. *)
Lemma by_id_and_owner (contact_id : Z) (user : User.t) (c : Contact.t) :
  (Contact.id c =? contact_id) && (Contact.user_id c =? User.id user) = true
  <-> Contact.id c = contact_id /\ Contact.user_id c = User.id user.
Proof. rewrite andb_true_iff, !Z.eqb_eq. reflexivity. Qed.

Lemma find_none_iff {A : Type} (f : A -> bool) (l : list A) :
  find f l = None <-> forall x, In x l -> f x = false.
Proof.
  split; [apply find_none|].
  induction l as [|a l IH]; intros H; simpl; [reflexivity|].
  rewrite (H a) by now left. apply IH. intros x Hx. apply H. now right.
Qed.

(** Under the primary key the first row that a predicate on the identifier
    selects is the only one. *)
Lemma find_primary_key (rows : list Contact.t) (P : Contact.t -> bool)
    (c : Contact.t) :
  NoDup (map Contact.id rows) -> In c rows -> P c = true ->
  (forall r, P r = true -> Contact.id r = Contact.id c) ->
  find P rows = Some c.
Proof.
  induction rows as [|r rows IH]; intros Hnd Hin Hc Hid; [destruct Hin|].
  simpl in Hnd. inversion Hnd as [|? ? Hnotin Hnd']; subst.
  destruct Hin as [-> | Hin]; simpl.
  - now rewrite Hc.
  - destruct (P r) eqn:Hr; [|now apply IH].
    exfalso. apply Hnotin. rewrite (Hid r Hr). now apply in_map.
Qed.

(** X1: [get_contact] returns only a stored contact with the identifier
    asked for that belongs to the user, and it returns [None] exactly when
    no stored contact with that identifier belongs to the user. *)
Theorem get_contact_owned (contact_id : Z) (db : Session) (user : User.t) :
  (forall c, get_contact contact_id db user = Some c ->
     In c (contacts_table db)
     /\ Contact.id c = contact_id /\ Contact.user_id c = User.id user)
  /\ (get_contact contact_id db user = None
      <-> forall c, In c (contacts_table db) ->
            Contact.id c = contact_id -> Contact.user_id c <> User.id user).
Proof.
  unfold get_contact, query_first. split.
  - intros c H. apply find_some in H as [Hin H].
    apply by_id_and_owner in H. tauto.
  - rewrite find_none_iff. split.
    + intros H c Hin Hid Hown.
      specialize (H c Hin).
      assert (Ht : (Contact.id c =? contact_id)
                   && (Contact.user_id c =? User.id user) = true)
        by now apply by_id_and_owner.
      congruence.
    + intros H c Hin.
      destruct ((Contact.id c =? contact_id)
                && (Contact.user_id c =? User.id user)) eqn:E; [|reflexivity].
      apply by_id_and_owner in E as [Hid Hown]. now destruct (H c Hin Hid).
Qed.

(** X2: under the primary key every stored contact of the user is the one
    that [get_contact] returns for its identifier. *)
Theorem get_contact_finds_owned (db : Session) (user : User.t)
    (c : Contact.t) :
  primary_key db ->
  In c (contacts_table db) ->
  Contact.user_id c = User.id user ->
  get_contact (Contact.id c) db user = Some c.
Proof.
  intros Hpk Hin Hown. unfold get_contact, query_first.
  apply find_primary_key; auto.
  - now apply by_id_and_owner.
  - intros r Hr. now apply by_id_and_owner in Hr.
Qed.

Lemma get_contact_finds_owned_witness :
  get_contact 2 store_three user1
  = Some (contact_user1 2 (datetime.mkdate 1990 3 20)).
Proof.
  apply (get_contact_finds_owned store_three user1
           (contact_user1 2 (datetime.mkdate 1990 3 20))
           primary_key_store_three).
  - simpl. right. left. reflexivity.
  - reflexivity.
Defined.

(** ** Paging with [get_contacts] *)

Lemma row_count_range (n : Z) :
  row_count n = true <-> 0 <= n <= BIGINT_MAX.
Proof. unfold row_count. rewrite andb_true_iff, !Z.leb_le. reflexivity. Qed.

Lemma get_contacts_rows (skip limit : Z) (db : Session) (user : User.t) :
  0 <= skip <= BIGINT_MAX -> 0 <= limit <= BIGINT_MAX ->
  get_contacts skip limit db user
  = Rows (firstn (Z.to_nat limit)
            (skipn (Z.to_nat skip) (owned_contacts db user))).
Proof.
  intros Hs Hl. unfold get_contacts.
  rewrite (proj2 (row_count_range skip) Hs).
  rewrite (proj2 (row_count_range limit) Hl).
  reflexivity.
Qed.

(** A count above [BIGINT_MAX] makes the call fail, whatever is stored. *)
Lemma get_contacts_out_of_range (skip limit : Z) (db : Session)
    (user : User.t) :
  BIGINT_MAX < skip \/ BIGINT_MAX < limit ->
  get_contacts skip limit db user = StatementRejected.
Proof.
  intros H. unfold get_contacts, row_count.
  destruct H as [H | H].
  - replace (skip <=? BIGINT_MAX) with false
      by (symmetry; apply Z.leb_gt; exact H).
    now rewrite andb_false_r.
  - replace (limit <=? BIGINT_MAX) with false
      by (symmetry; apply Z.leb_gt; exact H).
    now rewrite !andb_false_r.
Qed.

Lemma firstn_add {A : Type} (n m : nat) (l : list A) :
  firstn (n + m) l = firstn n l ++ firstn m (skipn n l).
Proof.
  revert l. induction n as [|n IH]; intros l; [reflexivity|].
  destruct l as [|a l]; simpl.
  - now rewrite firstn_nil.
  - now rewrite IH.
Qed.

Lemma skipn_add {A : Type} (n m : nat) (l : list A) :
  skipn (n + m) l = skipn m (skipn n l).
Proof.
  revert l. induction n as [|n IH]; intros l; [reflexivity|].
  destruct l as [|a l]; simpl; [now rewrite skipn_nil|apply IH].
Qed.

Lemma In_firstn {A : Type} (n : nat) (l : list A) (x : A) :
  In x (firstn n l) -> In x l.
Proof.
  intros H. rewrite <- (firstn_skipn n l). apply in_or_app. now left.
Qed.

Lemma In_skipn {A : Type} (n : nat) (l : list A) (x : A) :
  In x (skipn n l) -> In x l.
Proof.
  intros H. rewrite <- (firstn_skipn n l). apply in_or_app. now right.
Qed.

(** X3: for [skip] and [limit] from 0 to [BIGINT_MAX], [get_contacts]
    returns at most [limit] rows, each of them a stored contact of the
    user. *)
Theorem get_contacts_page (skip limit : Z) (db : Session) (user : User.t) :
  0 <= skip <= BIGINT_MAX -> 0 <= limit <= BIGINT_MAX ->
  exists page,
    get_contacts skip limit db user = Rows page
    /\ Z.of_nat (List.length page) <= limit
    /\ forall c, In c page ->
         In c (contacts_table db) /\ Contact.user_id c = User.id user.
Proof.
  intros Hs Hl. eexists. split; [now apply get_contacts_rows|]. split.
  - pose proof (firstn_le_length (Z.to_nat limit)
                  (skipn (Z.to_nat skip) (owned_contacts db user))).
    lia.
  - intros c Hc. apply In_firstn, In_skipn in Hc.
    apply filter_In in Hc as [Hin Hown]. split; [exact Hin|].
    now apply Z.eqb_eq.
Qed.

Lemma get_contacts_page_witness :
  exists page,
    get_contacts 1 1 store_three user1 = Rows page
    /\ Z.of_nat (List.length page) <= 1
    /\ forall c, In c page ->
         In c (contacts_table store_three)
         /\ Contact.user_id c = User.id user1.
Proof.
  apply (get_contacts_page 1 1 store_three user1); unfold BIGINT_MAX; lia.
Defined.

(** X4: consecutive pages join: when [skip], [skip + a], [a], [b] and
    [a + b] are counts from 0 to [BIGINT_MAX], the page of [a] rows from
    [skip] followed by the page of [b] rows from [skip + a] is the page of
    [a + b] rows from [skip]. *)
Theorem get_contacts_consecutive_pages (skip a b : Z) (db : Session)
    (user : User.t) :
  0 <= skip -> 0 <= a -> 0 <= b ->
  skip + a <= BIGINT_MAX -> a + b <= BIGINT_MAX ->
  exists first second,
    get_contacts skip a db user = Rows first
    /\ get_contacts (skip + a) b db user = Rows second
    /\ get_contacts skip (a + b) db user = Rows (first ++ second).
Proof.
  intros Hs Ha Hb Hsa Hab. do 2 eexists.
  rewrite !get_contacts_rows by lia.
  split; [reflexivity|]. split; [reflexivity|].
  rewrite !Z2Nat.inj_add by lia.
  now rewrite firstn_add, skipn_add.
Qed.

Lemma get_contacts_consecutive_pages_witness :
  exists first second,
    get_contacts 0 1 store_three user1 = Rows first
    /\ get_contacts (0 + 1) 2 store_three user1 = Rows second
    /\ get_contacts 0 (1 + 2) store_three user1 = Rows (first ++ second).
Proof.
  apply (get_contacts_consecutive_pages 0 1 2 store_three user1);
    unfold BIGINT_MAX; lia.
Defined.

(** X5: for [skip] and [limit] from 0 to [BIGINT_MAX], a page from the
    start that is as long as the user's contacts are many is all of them,
    in store-native order, and a page that starts behind the last of them
    is empty. *)
Theorem get_contacts_whole_and_beyond (skip limit : Z) (db : Session)
    (user : User.t) :
  0 <= skip <= BIGINT_MAX -> 0 <= limit <= BIGINT_MAX ->
  (Z.of_nat (List.length (owned_contacts db user)) <= limit ->
   get_contacts 0 limit db user = Rows (owned_contacts db user))
  /\ (Z.of_nat (List.length (owned_contacts db user)) <= skip ->
      get_contacts skip limit db user = Rows []).
Proof.
  intros Hs Hl. split; intros Hlen.
  - rewrite get_contacts_rows by (unfold BIGINT_MAX in *; lia). simpl skipn.
    rewrite firstn_all2 by lia. reflexivity.
  - rewrite get_contacts_rows by lia.
    rewrite skipn_all2 by lia. now rewrite firstn_nil.
Qed.

Lemma get_contacts_range_100 : 0 <= 100 <= BIGINT_MAX.
Proof. unfold BIGINT_MAX. lia. Defined.

Lemma get_contacts_whole_and_beyond_witness :
  get_contacts 0 100 store_three user1 = Rows (contacts_table store_three)
  /\ get_contacts 3 100 store_three user1 = Rows [].
Proof.
  split.
  - apply (proj1 (get_contacts_whole_and_beyond 0 100 store_three user1
                    ltac:(unfold BIGINT_MAX; lia) get_contacts_range_100)).
    simpl. lia.
  - apply (proj2 (get_contacts_whole_and_beyond 3 100 store_three user1
                    ltac:(unfold BIGINT_MAX; lia) get_contacts_range_100)).
    simpl. lia.
Defined.

(** ** Creating, removing and updating *)

Lemma find_app_last {A : Type} (f : A -> bool) (l : list A) (a : A) :
  find f (l ++ [a])
  = match find f l with
    | Some x => Some x
    | None => if f a then Some a else None
    end.
Proof.
  induction l as [|x l IH]; simpl; [reflexivity|].
  destruct (f x); [reflexivity|exact IH].
Qed.

Lemma NoDup_snoc {A : Type} (l : list A) (a : A) :
  NoDup l -> ~ In a l -> NoDup (l ++ [a]).
Proof.
  induction l as [|x l IH]; intros Hnd Hnotin; simpl.
  - constructor; [intros []|constructor].
  - inversion Hnd as [|? ? Hx Hl]; subst. constructor.
    + intros Hin. apply in_app_or in Hin as [Hin | [<- | []]]; [now apply Hx|].
      apply Hnotin. now left.
    + apply IH; [exact Hl|]. intros Hin. apply Hnotin. now right.
Qed.

Lemma fresh_id_rows (new_id : Z) (db : Session) (r : Contact.t) :
  fresh_id new_id db -> In r (contacts_table db) -> Contact.id r <> new_id.
Proof. intros Hf Hin E. apply Hf. rewrite <- E. now apply in_map. Qed.

(** A row added under an identifier that was not in use is the one that
    its owner finds under that identifier. *)
Lemma get_contact_added (db : Session) (user : User.t) (c : Contact.t) :
  fresh_id (Contact.id c) db ->
  Contact.user_id c = User.id user ->
  get_contact (Contact.id c) (add c db) user = Some c.
Proof.
  intros Hf Hown.
  unfold get_contact, query_first, add. simpl contacts_table.
  rewrite find_app_last.
  replace (find _ (contacts_table db)) with (@None Contact.t).
  - rewrite Hown. now rewrite !Z.eqb_refl.
  - symmetry. apply find_none_iff. intros r Hr.
    apply andb_false_iff. left. apply Z.eqb_neq.
    now apply (fresh_id_rows (Contact.id c) db).
Qed.

(** X6: the contact that [create_contact] returns carries the six
    attributes of the body and the identifier of the calling user as its
    owner, and when the identifier given by the store is not in use,
    [get_contact] on the new session returns that contact to the user. *)
Theorem create_contact_then_get (body : ContactModel.t) (db : Session)
    (user : User.t) (new_id : Z) :
  fresh_id new_id db ->
  let '(db', c) := create_contact body db user new_id in
  get_contact new_id db' user = Some c
  /\ Contact.user_id c = User.id user
  /\ Contact.first_name c = ContactModel.first_name body
  /\ Contact.second_name c = ContactModel.second_name body
  /\ Contact.email c = ContactModel.email body
  /\ Contact.phone c = ContactModel.phone body
  /\ Contact.birthday c = ContactModel.birthday body
  /\ Contact.description c = ContactModel.description body.
Proof.
  intros Hf. simpl. split; [|now repeat split].
  match goal with
  | |- get_contact _ (add ?c _) _ = _ =>
      exact (get_contact_added db user c Hf eq_refl)
  end.
Qed.

Lemma fresh_id_store_three : fresh_id 4 store_three.
Proof. unfold fresh_id. simpl. intuition discriminate. Defined.

Lemma create_contact_then_get_witness :
  let '(db', c) := create_contact body4 store_three user1 4 in
  get_contact 4 db' user1 = Some c
  /\ Contact.user_id c = User.id user1
  /\ Contact.first_name c = ContactModel.first_name body4
  /\ Contact.second_name c = ContactModel.second_name body4
  /\ Contact.email c = ContactModel.email body4
  /\ Contact.phone c = ContactModel.phone body4
  /\ Contact.birthday c = ContactModel.birthday body4
  /\ Contact.description c = ContactModel.description body4.
Proof.
  exact (create_contact_then_get body4 store_three user1 4
           fresh_id_store_three).
Defined.

(** X7: [create_contact] with an identifier that is not in use keeps the
    primary key, leaves the answer of [get_contact] for every other
    identifier and every user as it was, puts the new contact last among
    the caller's contacts, and leaves the contacts of every other user as
    they were. *)
Theorem create_contact_keeps_others (body : ContactModel.t) (db : Session)
    (user : User.t) (new_id : Z) :
  primary_key db -> fresh_id new_id db ->
  let '(db', c) := create_contact body db user new_id in
  primary_key db'
  /\ (forall contact_id other, contact_id <> new_id ->
        get_contact contact_id db' other = get_contact contact_id db other)
  /\ owned_contacts db' user = owned_contacts db user ++ [c]
  /\ (forall other, User.id other <> User.id user ->
        owned_contacts db' other = owned_contacts db other).
Proof.
  intros Hpk Hf. simpl. repeat split.
  - unfold primary_key, add. simpl. rewrite map_app. simpl.
    now apply NoDup_snoc.
  - intros contact_id other Hne. unfold get_contact, query_first, add.
    simpl contacts_table. rewrite find_app_last.
    destruct (find _ (contacts_table db)); [reflexivity|]. simpl.
    replace (new_id =? contact_id) with false
      by (symmetry; apply Z.eqb_neq; congruence).
    reflexivity.
  - unfold owned_contacts, add. simpl contacts_table.
    rewrite filter_app. simpl. unfold owned_by at 2. simpl.
    now rewrite Z.eqb_refl.
  - intros other Hne. unfold owned_contacts, add. simpl contacts_table.
    rewrite filter_app. simpl. unfold owned_by at 2. simpl.
    replace (User.id user =? User.id other) with false
      by (symmetry; apply Z.eqb_neq; congruence).
    apply app_nil_r.
Qed.

Lemma create_contact_keeps_others_witness :
  let '(db', c) := create_contact body4 store_three user1 4 in
  primary_key db'
  /\ (forall contact_id other, contact_id <> 4 ->
        get_contact contact_id db' other
        = get_contact contact_id store_three other)
  /\ owned_contacts db' user1 = owned_contacts store_three user1 ++ [c]
  /\ (forall other, User.id other <> User.id user1 ->
        owned_contacts db' other = owned_contacts store_three other).
Proof.
  exact (create_contact_keeps_others body4 store_three user1 4
           primary_key_store_three fresh_id_store_three).
Defined.

Lemma find_filter_keep {A : Type} (f keep : A -> bool) (l : list A) :
  (forall x, In x l -> f x = true -> keep x = true) ->
  find f (filter keep l) = find f l.
Proof.
  induction l as [|a l IH]; intros H; simpl; [reflexivity|].
  assert (IH' : find f (filter keep l) = find f l)
    by (apply IH; intros x Hx; apply H; now right).
  destruct (keep a) eqn:Ek; simpl.
  - now rewrite IH'.
  - destruct (f a) eqn:Ef; [|exact IH'].
    rewrite (H a) in Ek by (auto; now left). discriminate.
Qed.

Lemma remove_contact_found (contact_id : Z) (db db' : Session)
    (user : User.t) (c : Contact.t) :
  remove_contact contact_id db user = (db', Some c) ->
  In c (contacts_table db)
  /\ Contact.id c = contact_id /\ Contact.user_id c = User.id user
  /\ db' = delete c db.
Proof.
  unfold remove_contact, query_first.
  destruct (find _ (contacts_table db)) as [x|] eqn:E; [|discriminate].
  intros [= <- <-]. apply find_some in E as [Hin E].
  apply by_id_and_owner in E. tauto.
Qed.

(** X8: after a successful [remove_contact] no user gets a contact for the
    removed identifier from [get_contact], and the answer of [get_contact]
    for every other identifier is as it was; the returned contact was a
    stored contact of the caller with that identifier. *)
Theorem remove_contact_then_get (contact_id : Z) (db db' : Session)
    (user : User.t) (c : Contact.t) :
  remove_contact contact_id db user = (db', Some c) ->
  In c (contacts_table db)
  /\ Contact.id c = contact_id
  /\ Contact.user_id c = User.id user
  /\ (forall other, get_contact contact_id db' other = None)
  /\ (forall other_id other, other_id <> contact_id ->
        get_contact other_id db' other = get_contact other_id db other).
Proof.
  intros H. apply remove_contact_found in H as (Hin & Hid & Hown & ->).
  repeat split; auto.
  - intros other. unfold get_contact, query_first, delete. simpl.
    apply find_none_iff. intros x Hx. apply filter_In in Hx as [_ Hx].
    apply negb_true_iff in Hx. rewrite Hid in Hx. now rewrite Hx.
  - intros other_id other Hne. unfold get_contact, query_first, delete.
    simpl. apply find_filter_keep. intros x _ Hx.
    apply by_id_and_owner in Hx as [Hx _].
    apply negb_true_iff, Z.eqb_neq. congruence.
Qed.

Lemma remove_contact_then_get_witness :
  let c := contact_user1 2 (datetime.mkdate 1990 3 20) in
  let db' := delete c store_three in
  In c (contacts_table store_three)
  /\ Contact.id c = 2
  /\ Contact.user_id c = User.id user1
  /\ (forall other, get_contact 2 db' other = None)
  /\ (forall other_id other, other_id <> 2 ->
        get_contact other_id db' other = get_contact other_id store_three other).
Proof.
  exact (remove_contact_then_get 2 store_three _ user1 _ eq_refl).
Defined.

(** X9: a contact is removed only through its owner: under the primary key
    whatever [remove_contact] does for a user, every stored contact of
    another user is still stored afterwards; and when no stored contact
    with the identifier belongs to the caller the session is unchanged and
    [None] is returned. *)
Theorem remove_contact_isolation (contact_id : Z) (db : Session)
    (user : User.t) :
  primary_key db ->
  (forall c, In c (contacts_table db) ->
     Contact.user_id c <> User.id user ->
     In c (contacts_table (fst (remove_contact contact_id db user))))
  /\ (get_contact contact_id db user = None ->
      remove_contact contact_id db user = (db, None)).
Proof.
  intros Hpk. split.
  - intros c Hin Hother.
    destruct (remove_contact contact_id db user) as [db' [x|]] eqn:E.
    + apply remove_contact_found in E as (Hx & Hid & Hown & ->).
      simpl. apply filter_In. split; [exact Hin|].
      apply negb_true_iff, Z.eqb_neq. intros Heq.
      assert (c = x); [|congruence].
      pose proof (find_primary_key (contacts_table db)
                    (fun r => Contact.id r =? Contact.id x) x Hpk Hx
                    (Z.eqb_refl _)
                    (fun r Hr => proj1 (Z.eqb_eq _ _) Hr)) as Fx.
      pose proof (find_primary_key (contacts_table db)
                    (fun r => Contact.id r =? Contact.id x) c Hpk Hin
                    (proj2 (Z.eqb_eq _ _) Heq)
                    (fun r Hr => eq_trans (proj1 (Z.eqb_eq _ _) Hr)
                                   (eq_sym Heq))) as Fc.
      congruence.
    + unfold remove_contact in E.
      destruct (query_first _ db); [discriminate|].
      injection E as <-. exact Hin.
  - unfold get_contact, remove_contact. now intros ->.
Qed.

Lemma primary_key_store_two_users : primary_key store_two_users.
Proof.
  unfold primary_key. simpl.
  repeat constructor; simpl; intuition discriminate.
Defined.

Lemma remove_contact_isolation_witness :
  (forall c, In c (contacts_table store_two_users) ->
     Contact.user_id c <> User.id user1 ->
     In c (contacts_table (fst (remove_contact 2 store_two_users user1))))
  /\ (get_contact 2 store_two_users user1 = None ->
      remove_contact 2 store_two_users user1 = (store_two_users, None)).
Proof.
  exact (remove_contact_isolation 2 store_two_users user1
           primary_key_store_two_users).
Defined.

Lemma filter_all {A : Type} (f : A -> bool) (l : list A) :
  (forall x, In x l -> f x = true) -> filter f l = l.
Proof.
  induction l as [|a l IH]; intros H; simpl; [reflexivity|].
  rewrite (H a) by now left. f_equal. apply IH. intros x Hx. apply H.
  now right.
Qed.

(** X10: removing a contact right after creating it, with an identifier
    that was not in use, gives back the session from before the creation
    and returns the created contact. *)
Theorem create_then_remove_contact (body : ContactModel.t) (db : Session)
    (user : User.t) (new_id : Z) :
  fresh_id new_id db ->
  let '(db', c) := create_contact body db user new_id in
  remove_contact new_id db' user = (db, Some c).
Proof.
  intros Hf. simpl.
  match goal with
  | |- remove_contact _ (add ?c _) _ = _ =>
      pose proof (get_contact_added db user c Hf eq_refl) as Hget
  end.
  simpl in Hget.
  unfold remove_contact. unfold get_contact in Hget. rewrite Hget.
  f_equal. unfold delete, add. simpl.
  rewrite filter_app. simpl. rewrite Z.eqb_refl. simpl.
  rewrite app_nil_r, filter_all; [now destruct db|].
  intros x Hx. apply negb_true_iff, Z.eqb_neq.
  now apply (fresh_id_rows new_id db).
Qed.

Lemma create_then_remove_contact_witness :
  let '(db', c) := create_contact body4 store_three user1 4 in
  remove_contact 4 db' user1 = (store_three, Some c).
Proof.
  exact (create_then_remove_contact body4 store_three user1 4
           fresh_id_store_three).
Defined.

(** *** What [update_contact] does to the table *)

Lemma update_contact_commit (contact_id : Z) (body : ContactModel.t)
    (db db' : Session) (user : User.t) (c' : Contact.t) :
  update_contact contact_id body db user = (db', Some c') ->
  db' = commit c' db
  /\ exists c, In c (contacts_table db)
               /\ Contact.id c = contact_id
               /\ Contact.user_id c = User.id user.
Proof.
  unfold update_contact, query_first.
  destruct (find _ (contacts_table db)) as [c|] eqn:E; [|discriminate].
  intros [= <- <-]. split; [reflexivity|].
  apply find_some in E as [Hin E]. apply by_id_and_owner in E.
  exists c. tauto.
Qed.

Lemma commit_ids (c' : Contact.t) (db : Session) :
  map Contact.id (contacts_table (commit c' db))
  = map Contact.id (contacts_table db).
Proof.
  unfold commit. simpl. rewrite map_map. apply map_ext. intros r.
  destruct (Contact.id r =? Contact.id c') eqn:E; [|reflexivity].
  apply Z.eqb_eq in E. congruence.
Qed.

(** X11: [update_contact] and [remove_contact] keep the identifier a
    primary key, and [update_contact] keeps the identifiers that are
    stored, each as often as before (their order is not spoken of). *)
Theorem primary_key_kept (contact_id : Z) (body : ContactModel.t)
    (db : Session) (user : User.t) :
  primary_key db ->
  primary_key (fst (update_contact contact_id body db user))
  /\ Permutation
       (map Contact.id
          (contacts_table (fst (update_contact contact_id body db user))))
       (map Contact.id (contacts_table db))
  /\ primary_key (fst (remove_contact contact_id db user)).
Proof.
  intros Hpk.
  assert (Hids : map Contact.id
                   (contacts_table (fst (update_contact contact_id body db user)))
                 = map Contact.id (contacts_table db)).
  { destruct (update_contact contact_id body db user) as [db' [c'|]] eqn:E.
    - apply update_contact_commit in E as [-> _]. apply commit_ids.
    - unfold update_contact in E. destruct (query_first _ db); [discriminate|].
      now injection E as <-. }
  split; [|split].
  - unfold primary_key. now rewrite Hids.
  - rewrite Hids. apply Permutation_refl.
  - unfold remove_contact. destruct (query_first _ db) as [c|]; [|exact Hpk].
    unfold primary_key, delete. simpl.
    unfold primary_key in Hpk. clear - Hpk.
    induction (contacts_table db) as [|r rows IH]; simpl; [constructor|].
    simpl in Hpk. inversion Hpk as [|? ? Hnotin Hnd]; subst.
    destruct (negb (Contact.id r =? Contact.id c)); simpl; [|now apply IH].
    constructor; [|now apply IH].
    intros Hin. apply Hnotin. apply in_map_iff in Hin as (x & Hx & Hin).
    apply filter_In in Hin as [Hin _]. rewrite <- Hx. now apply in_map.
Qed.

Lemma primary_key_kept_witness :
  primary_key (fst (update_contact 2 body4 store_three user1))
  /\ Permutation
       (map Contact.id
          (contacts_table (fst (update_contact 2 body4 store_three user1))))
       (map Contact.id (contacts_table store_three))
  /\ primary_key (fst (remove_contact 2 store_three user1)).
Proof.
  exact (primary_key_kept 2 body4 store_three user1 primary_key_store_three).
Defined.

(** The table after [commit] of a row whose owner reference is its own
    identifier, as seen through the selection by identifier and owner. *)
Lemma commit_find (c' : Contact.t) (db : Session) (uid : Z) :
  Contact.user_id c' = Contact.id c' ->
  (exists c, In c (contacts_table db) /\ Contact.id c = Contact.id c') ->
  find (fun r => (Contact.id r =? Contact.id c') && (Contact.user_id r =? uid))
       (contacts_table (commit c' db))
  = if Contact.id c' =? uid then Some c' else None.
Proof.
  intros Hown Hex. unfold commit. simpl.
  destruct (Contact.id c' =? uid) eqn:Eu.
  - destruct Hex as (c & Hin & Hc).
    induction (contacts_table db) as [|r rows IH]; [destruct Hin|]. simpl.
    destruct (Contact.id r =? Contact.id c') eqn:Er.
    + now rewrite Z.eqb_refl, Hown, Eu.
    + rewrite Er. simpl. apply IH. destruct Hin as [-> | Hin]; [|exact Hin].
      apply Z.eqb_neq in Er. contradiction.
  - clear Hex. induction (contacts_table db) as [|r rows IH]; [reflexivity|].
    simpl. destruct (Contact.id r =? Contact.id c') eqn:Er.
    + now rewrite Z.eqb_refl, Hown, Eu.
    + now rewrite Er.
Qed.

(** X12: after a successful [update_contact] the contact under that
    identifier has its own identifier as owner reference: [get_contact]
    returns it to the caller exactly when the caller's identifier equals
    the contact's, and returns it to the user whose identifier that is. *)
Theorem update_contact_then_get (contact_id : Z) (body : ContactModel.t)
    (db db' : Session) (user : User.t) (c' : Contact.t) :
  update_contact contact_id body db user = (db', Some c') ->
  get_contact contact_id db' user
  = (if contact_id =? User.id user then Some c' else None)
  /\ get_contact contact_id db' (User.mk contact_id) = Some c'.
Proof.
  intros H.
  destruct (update_contact_found _ _ _ _ _ _ H)
    as (Hid & _ & _ & _ & _ & _ & _ & Hown).
  apply update_contact_commit in H as (-> & c & Hin & Hc & _).
  assert (Hex : exists c, In c (contacts_table db)
                          /\ Contact.id c = Contact.id c')
    by (exists c; split; [exact Hin|congruence]).
  assert (Hself : Contact.user_id c' = Contact.id c') by congruence.
  unfold get_contact, query_first. rewrite <- Hid. split.
  - apply commit_find; assumption.
  - simpl User.id. rewrite commit_find by assumption.
    now rewrite Z.eqb_refl.
Qed.

Lemma update_contact_then_get_witness :
  let c' :=
    Contact.mk 2 "User4" "Example" "example@gmail.com" "0671122456"
      (datetime.mkdate 1995 8 19) "Some info for testing" 2 in
  get_contact 2 (commit c' store_three) user1
  = (if 2 =? User.id user1 then Some c' else None)
  /\ get_contact 2 (commit c' store_three) (User.mk 2) = Some c'.
Proof.
  exact (update_contact_then_get 2 body4 store_three _ user1 _ eq_refl).
Defined.

(** X13: a contact is updated only through its owner: under the primary
    key whatever [update_contact] does for a user, every stored contact of
    another user is stored unchanged afterwards; and when no stored contact
    with the identifier belongs to the caller the session is unchanged and
    [None] is returned. *)
Theorem update_contact_isolation (contact_id : Z) (body : ContactModel.t)
    (db : Session) (user : User.t) :
  primary_key db ->
  (forall c, In c (contacts_table db) ->
     Contact.user_id c <> User.id user ->
     In c (contacts_table (fst (update_contact contact_id body db user))))
  /\ (get_contact contact_id db user = None ->
      update_contact contact_id body db user = (db, None)).
Proof.
  intros Hpk. split.
  - intros c Hin Hother.
    destruct (update_contact contact_id body db user) as [db' [c'|]] eqn:E.
    + destruct (update_contact_found _ _ _ _ _ _ E) as (Hid & _).
      apply update_contact_commit in E as (-> & x & Hx & Hxid & Hxown).
      simpl. apply in_map_iff. exists c. split; [|exact Hin].
      destruct (Contact.id c =? Contact.id c') eqn:Ec; [|reflexivity].
      exfalso. apply Z.eqb_eq in Ec.
      assert (c = x); [|congruence].
      pose proof (find_primary_key (contacts_table db)
                    (fun r => Contact.id r =? contact_id) x Hpk Hx
                    (proj2 (Z.eqb_eq _ _) Hxid)
                    (fun r Hr => eq_trans (proj1 (Z.eqb_eq _ _) Hr)
                                   (eq_sym Hxid))) as Fx.
      pose proof (find_primary_key (contacts_table db)
                    (fun r => Contact.id r =? contact_id) c Hpk Hin
                    (proj2 (Z.eqb_eq _ _) (eq_trans Ec Hid))
                    (fun r Hr => eq_trans (proj1 (Z.eqb_eq _ _) Hr)
                                   (eq_sym (eq_trans Ec Hid)))) as Fc.
      congruence.
    + unfold update_contact in E.
      destruct (query_first _ db); [discriminate|].
      injection E as <-. exact Hin.
  - unfold get_contact, update_contact. now intros ->.
Qed.

Lemma update_contact_isolation_witness :
  (forall c, In c (contacts_table store_two_users) ->
     Contact.user_id c <> User.id user1 ->
     In c (contacts_table
             (fst (update_contact 2 body4 store_two_users user1))))
  /\ (get_contact 2 store_two_users user1 = None ->
      update_contact 2 body4 store_two_users user1 = (store_two_users, None)).
Proof.
  exact (update_contact_isolation 2 body4 store_two_users user1
           primary_key_store_two_users).
Defined.

(** ** The handlers *)

Lemma get_contact_none (contact_id : Z) (db : Session) (user : User.t) :
  get_contact contact_id db user = None
  <-> forall c, In c (contacts_table db) ->
        Contact.id c = contact_id -> Contact.user_id c <> User.id user.
Proof.
  unfold get_contact, query_first. rewrite find_none_iff. split.
  - intros H c Hin Hid Hown. specialize (H c Hin).
    rewrite (proj2 (by_id_and_owner contact_id user c)) in H by tauto.
    discriminate.
  - intros H c Hin.
    destruct ((Contact.id c =? contact_id)
              && (Contact.user_id c =? User.id user)) eqn:E; [|reflexivity].
    apply by_id_and_owner in E as [Hid Hown]. now destruct (H c Hin Hid).
Qed.

(** [read_contact] passes the answer of [get_contact] on: 404 "Contact not
    found" when no stored contact with the identifier belongs to the
    current user, and else that contact. *)
Lemma read_contact_answers (contact_id : Z) (db : Session)
    (current_user : User.t) :
  (routes.read_contact contact_id db current_user
   = routes.HTTPException 404 "Contact not found"
   <-> forall c, In c (contacts_table db) ->
         Contact.id c = contact_id ->
         Contact.user_id c <> User.id current_user)
  /\ (forall c,
        routes.read_contact contact_id db current_user = routes.Respond c ->
        In c (contacts_table db)
        /\ Contact.id c = contact_id
        /\ Contact.user_id c = User.id current_user).
Proof.
  rewrite <- get_contact_none. unfold routes.read_contact.
  destruct (get_contact contact_id db current_user) as [c|] eqn:E.
  - unfold get_contact, query_first in E. apply find_some in E as [Hin E].
    apply by_id_and_owner in E as [Hid Hown].
    split; [split; discriminate|].
    intros x [= <-]; tauto.
  - split; [split; reflexivity|discriminate].
Qed.

(** The two search handlers test the list of the repository for [None]
    only: [find_contact_by_some_info] answers with that list, also when it
    is empty, and [find_birthday_per_week] answers with the list or lets
    the repository's exception through. *)
Lemma find_handlers_respond (some_info : string) (days : Z)
    (db : Session) (current_user : User.t) (now : datetime.date) :
  routes.find_contact_by_some_info some_info db current_user
  = routes.Respond (get_contact_by_some_info some_info db current_user)
  /\ (forall status detail,
        routes.find_birthday_per_week days db current_user now
        <> routes.HTTPException status detail)
  /\ (forall contacts,
        routes.find_birthday_per_week days db current_user now
        = routes.Respond contacts
        <-> get_birthday_per_week days db current_user now = Ok contacts)
  /\ (forall e,
        routes.find_birthday_per_week days db current_user now
        = routes.Propagated e
        <-> get_birthday_per_week days db current_user now = Raise e).
Proof.
  unfold routes.find_contact_by_some_info, routes.find_birthday_per_week.
  destruct (get_birthday_per_week days db current_user now); simpl.
  - split; [reflexivity|]. split; [discriminate|].
    split; intros x; split; congruence.
  - split; [reflexivity|]. split; [discriminate|].
    split; intros x; split; congruence.
Qed.

(** X15: the handlers [update_contact] and [remove_contact] answer 404
    "Contact not found" and leave the session as it was exactly when no
    stored contact with the identifier belongs to the current user, be it
    missing or another user's; they raise no other [HTTPException], and
    none that comes with a changed session. *)
Theorem mutating_handlers_not_found (body : ContactModel.t)
    (contact_id : Z) (db : Session) (current_user : User.t) :
  ((forall c, In c (contacts_table db) ->
      Contact.id c = contact_id ->
      Contact.user_id c <> User.id current_user)
   <-> routes.update_contact body contact_id db current_user
       = (db, routes.HTTPException 404 "Contact not found"))
  /\ ((forall c, In c (contacts_table db) ->
         Contact.id c = contact_id ->
         Contact.user_id c <> User.id current_user)
      <-> routes.remove_contact contact_id db current_user
          = (db, routes.HTTPException 404 "Contact not found"))
  /\ (forall db' status detail,
        routes.update_contact body contact_id db current_user
        = (db', routes.HTTPException status detail)
        \/ routes.remove_contact contact_id db current_user
           = (db', routes.HTTPException status detail) ->
        db' = db /\ status = 404).
Proof.
  rewrite <- !get_contact_none.
  unfold routes.update_contact, routes.remove_contact, update_contact,
    remove_contact, get_contact.
  destruct (query_first _ db) as [c|]; simpl.
  - split; [split; discriminate|].
    split; [split; discriminate|].
    intros db' status detail [H | H]; discriminate.
  - split; [split; reflexivity|].
    split; [split; reflexivity|].
    intros db' status detail [H | H]; injection H as <- <- _; now split.
Qed.

(** ** More on the search and on the birthday window *)




(** X17: whatever the window, every contact in a sequence that
    [get_birthday_per_week] returns is a stored contact of the user whose
    birthday in the year of today lies [delta] days ahead with
    [0 <= delta <= days]. *)
Theorem get_birthday_per_week_sound (days : Z) (db : Session)
    (user : User.t) (now : datetime.date) (response : list Contact.t)
    (c : Contact.t) :
  get_birthday_per_week days db user now = Ok response ->
  In c response ->
  In c (contacts_table db)
  /\ Contact.user_id c = User.id user
  /\ 0 <= delta now c <= days.
Proof.
  intros Hr Hin. unfold get_birthday_per_week in Hr.
  destruct (birthday_loop_members _ _ _ _ _ Hr c Hin) as [[] | [Hc Ht]].
  apply filter_In in Hc as [Hc Hown]. apply Z.eqb_eq in Hown.
  apply in_window_true in Ht as [_ Ht]. tauto.
Qed.

Lemma get_birthday_per_week_sound_witness :
  In (contact_user2 3 (datetime.mkdate 1992 3 18)) (contacts_table store_three)
  /\ 1 = User.id user1
  /\ 0 <= delta (datetime.mkdate 2023 3 17)
            (contact_user2 3 (datetime.mkdate 1992 3 18)) <= 5.
Proof.
  apply (get_birthday_per_week_sound 5 store_three user1
           (datetime.mkdate 2023 3 17)
           [contact_user1 2 (datetime.mkdate 1990 3 20);
            contact_user2 3 (datetime.mkdate 1992 3 18)]).
  - reflexivity.
  - simpl. right. left. reflexivity.
Defined.

(** X18: a contact of the user whose birthday falls on today's month and
    day is returned for every window [0 <= days <= 999999999], when no
    contact of the user has a February 29 birthday in a current year that
    is not leap. *)
Theorem birthday_today_included (days : Z) (db : Session) (user : User.t)
    (now : datetime.date) (c : Contact.t) :
  0 <= days <= 999999999 ->
  datetime.valid now = true ->
  birthdays_valid db user ->
  no_leap_day_clash db user now ->
  In c (owned_contacts db user) ->
  datetime.month (Contact.birthday c) = datetime.month now ->
  datetime.day (Contact.birthday c) = datetime.day now ->
  exists response,
    get_birthday_per_week days db user now = Ok response /\ In c response.
Proof.
  intros Hd Hn Hv Hl Hc Hm Hday. eexists. split.
  - apply get_birthday_per_week_defined; auto. intros x _. right. lia.
  - unfold birthday_window. apply filter_In. split; [exact Hc|].
    assert (H0 : delta now c = 0).
    { unfold delta, birthday_this_year, datetime.toordinal. simpl.
      rewrite Hm, Hday. lia. }
    rewrite H0. apply andb_true_iff. split; apply Z.leb_le; lia.
Qed.

Lemma birthday_today_included_witness :
  exists response,
    get_birthday_per_week 0 store_three user1 (datetime.mkdate 2023 3 20)
    = Ok response
    /\ In (contact_user1 2 (datetime.mkdate 1990 3 20)) response.
Proof.
  apply (birthday_today_included 0 store_three user1
           (datetime.mkdate 2023 3 20)
           (contact_user1 2 (datetime.mkdate 1990 3 20))).
  - lia.
  - reflexivity.
  - exact birthdays_valid_store_three.
  - apply no_leap_day_store_three.
  - simpl. right. left. reflexivity.
  - reflexivity.
  - reflexivity.
Defined.

(** A loop that returns has evaluated the condition on every contact. *)
Lemma birthday_loop_all_defined (days : Z) (now : datetime.date)
    (all_contacts response result : list Contact.t) :
  birthday_loop days now all_contacts response = Ok result ->
  forall c, In c all_contacts -> exists hit, in_window days now c = Ok hit.
Proof.
  revert response.
  induction all_contacts as [|cont rest IH]; intros response H c Hc;
    [destruct Hc|].
  simpl in H.
  destruct (in_window days now cont) as [hit|e] eqn:E; simpl in H;
    [|discriminate].
  destruct Hc as [<- | Hc]; [now exists hit|].
  now apply (IH _ H).
Qed.

(** What was in the response, and every contact on which the condition
    holds, is in what the loop returns. *)
Lemma birthday_loop_complete (days : Z) (now : datetime.date)
    (all_contacts response result : list Contact.t) :
  birthday_loop days now all_contacts response = Ok result ->
  forall c,
    In c response \/ (In c all_contacts /\ in_window days now c = Ok true) ->
    In c result.
Proof.
  revert response.
  induction all_contacts as [|cont rest IH]; intros response H c Hc;
    simpl in H.
  - injection H as <-. destruct Hc as [Hc | [[] _]]. exact Hc.
  - destruct (in_window days now cont) as [hit|e] eqn:E; simpl in H;
      [|discriminate].
    apply (IH _ H). destruct Hc as [Hc | [[<- | Hc] Ht]].
    + left. destruct hit; [apply in_or_app; now left|exact Hc].
    + left. rewrite E in Ht. injection Ht as ->.
      apply in_or_app. right. now left.
    + right. now split.
Qed.

(** X19: widening the window loses no contact: of two calls on the same
    session and day that both return, the one with the larger [days]
    returns every contact that the other returns. *)
Theorem get_birthday_per_week_monotone (days1 days2 : Z) (db : Session)
    (user : User.t) (now : datetime.date) (narrow wide : list Contact.t) :
  days1 <= days2 ->
  get_birthday_per_week days1 db user now = Ok narrow ->
  get_birthday_per_week days2 db user now = Ok wide ->
  forall c, In c narrow -> In c wide.
Proof.
  intros Hle H1 H2 c Hc. unfold get_birthday_per_week in *.
  destruct (birthday_loop_members _ _ _ _ _ H1 c Hc) as [[] | [Hin Ht]].
  apply (birthday_loop_complete _ _ _ _ _ H2). right. split; [exact Hin|].
  destruct (birthday_loop_all_defined _ _ _ _ _ H2 c Hin) as [hit Hhit].
  apply in_window_true in Ht as [Hb Hdelta].
  pose proof Hhit as Hw.
  rewrite (in_window_replaced _ _ _ _ Hb) in Hw.
  change (datetime.toordinal _ - datetime.toordinal now)
    with (delta now c) in Hw.
  replace (0 <=? delta now c) with true in Hw
    by (symmetry; apply Z.leb_le; lia).
  unfold datetime.timedelta_new in Hw.
  destruct (Z.abs days2 <=? 999999999); [|discriminate].
  simpl in Hw. injection Hw as <-. rewrite Hhit. f_equal.
  apply Z.leb_le. lia.
Qed.

Lemma get_birthday_per_week_monotone_witness :
  In (contact_user2 3 (datetime.mkdate 1992 3 18))
     [contact_user1 2 (datetime.mkdate 1990 3 20);
      contact_user2 3 (datetime.mkdate 1992 3 18)].
Proof.
  apply (get_birthday_per_week_monotone 1 5 store_three user1
           (datetime.mkdate 2023 3 17)
           [contact_user2 3 (datetime.mkdate 1992 3 18)]).
  - lia.
  - reflexivity.
  - reflexivity.
  - simpl. left. reflexivity.
Defined.

(** X20: with [days] in the range of [timedelta], [get_birthday_per_week]
    raises exactly when some contact of the user has a February 29
    birthday and the current year is not leap, and what it raises then is
    the [ValueError] of the year substitution. *)
Theorem get_birthday_per_week_raises_iff (days : Z) (db : Session)
    (user : User.t) (now : datetime.date) :
  Z.abs days <= 999999999 ->
  datetime.valid now = true ->
  birthdays_valid db user ->
  ((exists e, get_birthday_per_week days db user now = Raise e)
   <-> exists c, In c (owned_contacts db user)
                 /\ leap_day (Contact.birthday c) = true
                 /\ datetime._is_leap (datetime.year now) = false)
  /\ (forall e, get_birthday_per_week days db user now = Raise e ->
        e = ValueError).
Proof.
  intros Hd Hn Hv. unfold get_birthday_per_week. cbv zeta.
  change (query_all (fun c => Contact.user_id c =? User.id user) db)
    with (owned_contacts db user).
  split; [split|].
  - intros [e He].
    destruct (birthday_loop_raise_origin _ _ _ _ _ He) as (c & Hc & Hr).
    exists c. split; [exact Hc|].
    destruct (leap_day (Contact.birthday c)) eqn:El,
             (datetime._is_leap (datetime.year now)) eqn:Ey; auto;
      rewrite in_window_defined in Hr; auto; try discriminate;
      rewrite ?El, ?Ey; congruence.
  - intros (c & Hc & Hl & Hy).
    apply (birthday_loop_raises days now _ [] c ValueError Hc).
    now apply in_window_leap_day.
  - intros e He.
    destruct (birthday_loop_raise_origin _ _ _ _ _ He) as (c & _ & Hr).
    now apply (in_window_raises_ValueError days now c).
Qed.

Lemma get_birthday_per_week_raises_iff_witness :
  ((exists e,
      get_birthday_per_week 7 store_leap user1 (datetime.mkdate 2023 2 25)
      = Raise e)
   <-> exists c, In c (owned_contacts store_leap user1)
                 /\ leap_day (Contact.birthday c) = true
                 /\ datetime._is_leap 2023 = false)
  /\ (forall e,
        get_birthday_per_week 7 store_leap user1 (datetime.mkdate 2023 2 25)
        = Raise e -> e = ValueError).
Proof.
  apply (get_birthday_per_week_raises_iff 7 store_leap user1
           (datetime.mkdate 2023 2 25)).
  - simpl. lia.
  - reflexivity.
  - intros c [<- | []]. reflexivity.
Defined.
